(** * Surface mutation publisher (hyperion-autologging)

    A shallow embedding of [ALSurfaceMutationPublisher.ts]: the module-level
    map [activeSurfaces], the closure [processNode] installed by [publish]
    on the two surface channels, and [emitMutationEvent].

    JavaScript objects that the source shares and mutates are kept in
    stores and named by address:
    - [SurfaceInfo] records live in [heap]; [activeSurfaces] maps a surface
      id to the address of its record, and every field assignment of the
      source is a write at that address;
    - metadata bags live in [metadataStore]; a notification, a record and
      the events spread from the record all hold the same address;
    - emitted event objects live in [eventStore]; [mountEvent] fields hold
      addresses into it, and [channel] is the list of calls of
      [channel.emit], oldest first: the payload, and the stores as the
      listeners find them during the call.  Listeners themselves are not
      run: what they do to the page is not the tracker's.

    One call of [publish] is modelled.

    JavaScript numbers used as timestamps are exact rationals here (finite
    values, rounding left out); event indices are integers. *)

From stdpp Require Import gmap strings list fin_maps sorting.
From Stdlib Require Import QArith.

Local Open Scope Z_scope.

(** ** Values the tracker receives *)

(** A DOM node handle.  Identity ([===], [!=]) is equality of handles; the
    two facts [processNode] reads from a node travel with it. *)
Record Element := {
  elementId : nat;
  instanceofHTMLElement : bool;
  nodeName : string;
}.

#[global] Instance Element_eq_dec : EqDecision Element.
Proof. solve_decision. Defined.

Record ALFlowlet := {
  flowletId : nat;
  getFullName : string;
}.

(** Addresses into the three stores. *)
Abbreviation MetaRef := nat.
Abbreviation InfoRef := nat.
Abbreviation EventRef := nat.

(** [ALMetadata]: a bag of string entries. *)
Abbreviation ALMetadata := (gmap string string).

(** [ALChannelSurfaceEventData], the payload of [al_surface_mount] and
    [al_surface_unmount]. *)
Record ALChannelSurfaceEventData := {
  event_element : Element;
  event_surface : option string;
  event_flowlet : ALFlowlet;
  event_metadata : MetaRef;
}.

Inductive Action := added | removed.

Inductive EventName := mount_component | unmount_component.

(** ** Collaborators

    The imports of the module whose code is outside this file.  Their
    result types are left open. *)
Class Collaborators := {
  ALID : Type;
  ALElementTextEvent : Type;
  ComponentName : Type;
  ComponentStack : Type;
  (** [ALID.getOrSetAutoLoggingID] *)
  getOrSetAutoLoggingID : Element → ALID;
  (** [ALElementInfo.getOrCreate(element).getReactComponentData()] *)
  getReactComponentData : Element → option (ComponentName * ComponentStack);
  (** [getElementTextEvent(element | null, surface)] *)
  getElementTextEvent : option Element → string → ALElementTextEvent;
  (** [ALEventIndex]: the generator's hidden state and one draw from it *)
  EventIndexState : Type;
  getNextEventIndex : EventIndexState → Z * EventIndexState;
}.

(** What the surroundings answer during one call of [processNode]: the
    clock, the top of the flowlet stack and the DOM containment test. *)
Record Ambient := {
  performanceAbsoluteNow : Q;
  flowletManager_top : option ALFlowlet;
  contains : Element → Element → bool;
}.

(** ** The regular expression [/LINK|SCRIPT/] *)

(** [includes p s]: [p] occurs in [s] at some offset. *)
Fixpoint includes (p s : string) : bool :=
  String.prefix p s ||
  match s with
  | EmptyString => false
  | String _ s' => includes p s'
  end.

(** [/LINK|SCRIPT/.test(s)] *)
Definition regexp_LINK_SCRIPT_test (s : string) : bool :=
  includes "LINK" s || includes "SCRIPT" s.

Section Publish.
Context `{Collaborators}.

(** ** Records and events *)

Record SurfaceInfo := {
  surface : string;
  element : Element;
  addTime : Q;
  removeTime : option Q;
  flowlet : ALFlowlet;
  addFlowlet : option ALFlowlet;
  removeFlowlet : option ALFlowlet;
  reactComponentName : option ComponentName;
  reactComponentStack : option ComponentStack;
  elementText : ALElementTextEvent;
  mountEvent : option EventRef;
  metadata : MetaRef;
}.

(** An emitted object: the own properties of the record at the time of
    the spread ([spread], a shallow copy: addresses stay addresses)
    followed by the keys the object literal adds. *)
Record ALSurfaceMutationEventData := {
  spread : SurfaceInfo;
  event : EventName;
  eventTimestamp : Q;
  eventIndex : Z;
  autoLoggingID : ALID;
  mountedDuration : option Q;
}.

Definition with_element (e : Element) (i : SurfaceInfo) : SurfaceInfo :=
  {| surface := surface i; element := e; addTime := addTime i;
     removeTime := removeTime i; flowlet := flowlet i;
     addFlowlet := addFlowlet i; removeFlowlet := removeFlowlet i;
     reactComponentName := reactComponentName i;
     reactComponentStack := reactComponentStack i;
     elementText := elementText i; mountEvent := mountEvent i;
     metadata := metadata i |}.

Definition with_addTime (t : Q) (i : SurfaceInfo) : SurfaceInfo :=
  {| surface := surface i; element := element i; addTime := t;
     removeTime := removeTime i; flowlet := flowlet i;
     addFlowlet := addFlowlet i; removeFlowlet := removeFlowlet i;
     reactComponentName := reactComponentName i;
     reactComponentStack := reactComponentStack i;
     elementText := elementText i; mountEvent := mountEvent i;
     metadata := metadata i |}.

Definition with_removeTime (t : option Q) (i : SurfaceInfo) : SurfaceInfo :=
  {| surface := surface i; element := element i; addTime := addTime i;
     removeTime := t; flowlet := flowlet i;
     addFlowlet := addFlowlet i; removeFlowlet := removeFlowlet i;
     reactComponentName := reactComponentName i;
     reactComponentStack := reactComponentStack i;
     elementText := elementText i; mountEvent := mountEvent i;
     metadata := metadata i |}.

Definition with_addFlowlet (f : option ALFlowlet) (i : SurfaceInfo) : SurfaceInfo :=
  {| surface := surface i; element := element i; addTime := addTime i;
     removeTime := removeTime i; flowlet := flowlet i;
     addFlowlet := f; removeFlowlet := removeFlowlet i;
     reactComponentName := reactComponentName i;
     reactComponentStack := reactComponentStack i;
     elementText := elementText i; mountEvent := mountEvent i;
     metadata := metadata i |}.

Definition with_removeFlowlet (f : option ALFlowlet) (i : SurfaceInfo) : SurfaceInfo :=
  {| surface := surface i; element := element i; addTime := addTime i;
     removeTime := removeTime i; flowlet := flowlet i;
     addFlowlet := addFlowlet i; removeFlowlet := f;
     reactComponentName := reactComponentName i;
     reactComponentStack := reactComponentStack i;
     elementText := elementText i; mountEvent := mountEvent i;
     metadata := metadata i |}.

Definition with_mountEvent (m : option EventRef) (i : SurfaceInfo) : SurfaceInfo :=
  {| surface := surface i; element := element i; addTime := addTime i;
     removeTime := removeTime i; flowlet := flowlet i;
     addFlowlet := addFlowlet i; removeFlowlet := removeFlowlet i;
     reactComponentName := reactComponentName i;
     reactComponentStack := reactComponentStack i;
     elementText := elementText i; mountEvent := m;
     metadata := metadata i |}.

(** ** Program state *)

(** One call of [channel.emit]: the object handed over, and the records,
    the map and the bags at that moment. *)
Record Emission := {
  payload : EventRef;
  seen_heap : list SurfaceInfo;
  seen_activeSurfaces : gmap string InfoRef;
  seen_metadataStore : gmap MetaRef ALMetadata;
}.

Record State := {
  heap : list SurfaceInfo;
  activeSurfaces : gmap string InfoRef;
  metadataStore : gmap MetaRef ALMetadata;
  eventStore : list ALSurfaceMutationEventData;
  channel : list Emission;
  eventIndexState : EventIndexState;
}.

(** How a call ends: normally, by the failed [assert], or on an address
    that names no object (no JavaScript state has one; the stores make it
    expressible, so the model says what happens). *)
Inductive Outcome (A : Type) :=
  | Ok (a : A) (st : State)
  | AssertionFailed (msg : string)
  | InvalidRef.
Arguments Ok {A} a st.
Arguments AssertionFailed {A} msg.
Arguments InvalidRef {A}.

Definition M (A : Type) : Type := State → Outcome A.

#[global] Instance M_ret : MRet M := λ A a st, Ok a st.
#[global] Instance M_bind : MBind M := λ A B f m st,
  match m st with
  | Ok a st' => f a st'
  | AssertionFailed msg => AssertionFailed msg
  | InvalidRef => InvalidRef
  end.

(** [assert(cond, msg)] *)
Definition assert (cond : bool) (msg : string) : M unit :=
  λ st, if cond then Ok () st else AssertionFailed msg.

(** *** The [activeSurfaces] map *)

Definition activeSurfaces_get (s : string) : M (option InfoRef) :=
  λ st, Ok (activeSurfaces st !! s) st.

Definition activeSurfaces_set (s : string) (r : InfoRef) : M unit :=
  λ st, Ok ()
    {| heap := heap st; activeSurfaces := <[s := r]> (activeSurfaces st);
       metadataStore := metadataStore st; eventStore := eventStore st;
       channel := channel st; eventIndexState := eventIndexState st |}.

Definition activeSurfaces_delete (s : string) : M unit :=
  λ st, Ok ()
    {| heap := heap st; activeSurfaces := delete s (activeSurfaces st);
       metadataStore := metadataStore st; eventStore := eventStore st;
       channel := channel st; eventIndexState := eventIndexState st |}.

(** *** [SurfaceInfo] objects *)

(** An object literal: a new object at the next free address. *)
Definition new_SurfaceInfo (i : SurfaceInfo) : M InfoRef :=
  λ st, Ok (length (heap st))
    {| heap := heap st ++ [i]; activeSurfaces := activeSurfaces st;
       metadataStore := metadataStore st; eventStore := eventStore st;
       channel := channel st; eventIndexState := eventIndexState st |}.

Definition deref (r : InfoRef) : M SurfaceInfo :=
  λ st, match heap st !! r with
        | Some i => Ok i st
        | None => InvalidRef
        end.

(** [info.field = v] *)
Definition assign (r : InfoRef) (f : SurfaceInfo → SurfaceInfo) : M unit :=
  λ st, match heap st !! r with
        | Some i => Ok ()
            {| heap := <[r := f i]> (heap st); activeSurfaces := activeSurfaces st;
               metadataStore := metadataStore st; eventStore := eventStore st;
               channel := channel st; eventIndexState := eventIndexState st |}
        | None => InvalidRef
        end.

(** *** Metadata bags *)

(** [bag[key] = value] on the object at address [m].  Every address names
    a bag; one the store has no entry for is empty. *)
Definition metadata_set (m : MetaRef) (key value : string) : M unit :=
  λ st, Ok ()
    {| heap := heap st; activeSurfaces := activeSurfaces st;
       metadataStore := <[m := <[key := value]> (metadataStore st !!! m)]> (metadataStore st);
       eventStore := eventStore st;
       channel := channel st; eventIndexState := eventIndexState st |}.

(** *** Events *)

Definition new_event (e : ALSurfaceMutationEventData) : M EventRef :=
  λ st, Ok (length (eventStore st))
    {| heap := heap st; activeSurfaces := activeSurfaces st;
       metadataStore := metadataStore st; eventStore := eventStore st ++ [e];
       channel := channel st; eventIndexState := eventIndexState st |}.

(** The state once the object at [e] has gone to the listeners. *)
Definition sent (e : EventRef) (st : State) : State :=
  {| heap := heap st; activeSurfaces := activeSurfaces st;
     metadataStore := metadataStore st; eventStore := eventStore st;
     channel :=
       channel st ++
         [{| payload := e; seen_heap := heap st;
             seen_activeSurfaces := activeSurfaces st;
             seen_metadataStore := metadataStore st |}];
     eventIndexState := eventIndexState st |}.

(** [channel.emit('al_surface_mutation_event', e)] *)
Definition channel_emit (e : EventRef) : M unit :=
  λ st, Ok () (sent e st).

(** [ALEventIndex.getNextEventIndex()] *)
Definition ALEventIndex_getNextEventIndex : M Z :=
  λ st, let '(i, g) := getNextEventIndex (eventIndexState st) in
    Ok i
    {| heap := heap st; activeSurfaces := activeSurfaces st;
       metadataStore := metadataStore st; eventStore := eventStore st;
       channel := channel st; eventIndexState := g |}.

(** ** [emitMutationEvent]

    [surfaceInfo] is the address of the record.  The record is read once:
    the source writes no field of it between entry and the spread. *)
Definition emitMutationEvent (action : Action) (surfaceInfo : InfoRef) : M unit :=
  info ← deref surfaceInfo;
  let removeTime_ := removeTime info in
  let element_ := element info in
  let mountEvent_ := mountEvent info in
  match action with
  | added =>
      match addFlowlet info with
      | Some flowlet_ =>
          metadata_set (metadata info) "add_flowlet" (getFullName flowlet_)
      | None => mret ()
      end;;
      index ← ALEventIndex_getNextEventIndex;
      e ← new_event
            {| spread := info;
               event := mount_component;
               eventTimestamp := addTime info;
               eventIndex := index;
               autoLoggingID := getOrSetAutoLoggingID element_;
               mountedDuration := None |};
      assign surfaceInfo (with_mountEvent (Some e));;
      channel_emit e
  | removed =>
      match mountEvent_, removeTime_ with
      | Some mountEvent_, Some removeTime_ =>
          match removeFlowlet info with
          | Some flowlet_ =>
              metadata_set (metadata info) "remove_flowlet" (getFullName flowlet_)
          | None => mret ()
          end;;
          index ← ALEventIndex_getNextEventIndex;
          e ← new_event
                {| spread := with_mountEvent (Some mountEvent_) info;
                   event := unmount_component;
                   eventTimestamp := removeTime_;
                   eventIndex := index;
                   autoLoggingID := getOrSetAutoLoggingID element_;
                   mountedDuration := Some ((removeTime_ - addTime info) / 1000)%Q |};
          channel_emit e
      | _, _ => assert false "Missing mutaion info for unmounting"
      end
  end.

(** ** [processNode] *)

(** The [cacheElementReactInfo] option of [publish]. *)
Variable cacheElementReactInfo : bool.

Definition processNode (w : Ambient) (event_ : ALChannelSurfaceEventData)
    (action : Action) : M unit :=
  let timestamp := performanceAbsoluteNow w in
  let element_ := event_element event_ in
  let surface_ := event_surface event_ in
  let flowlet_ := event_flowlet event_ in
  let metadata_ := event_metadata event_ in
  let currFlowlet := flowletManager_top w in
  if negb (instanceofHTMLElement element_)
     || regexp_LINK_SCRIPT_test (nodeName element_)
  then mret ()
  else
  match surface_ with
  | None => mret ()
  | Some surface_ =>
  match action with
  | added =>
      info ← activeSurfaces_get surface_;
      match info with
      | None =>
          let reactComponentData :=
            if cacheElementReactInfo then getReactComponentData element_
            else None in
          let elementText_ :=
            if cacheElementReactInfo
            then getElementTextEvent (Some element_) surface_
            else getElementTextEvent None surface_ in
          info ← new_SurfaceInfo
                   {| surface := surface_;
                      element := element_;
                      addTime := timestamp;
                      removeTime := None;
                      flowlet := flowlet_;
                      addFlowlet := currFlowlet;
                      reactComponentName := fst <$> reactComponentData;
                      reactComponentStack := snd <$> reactComponentData;
                      elementText := elementText_;
                      removeFlowlet := None;
                      mountEvent := None;
                      metadata := metadata_ |};
          activeSurfaces_set surface_ info;;
          emitMutationEvent action info
      | Some info =>
          old ← deref info;
          if bool_decide (element_ ≠ element old)
             && contains w element_ (element old)
          then
            assign info (with_element element_);;
            assign info (with_addFlowlet currFlowlet);;
            assign info (with_addTime timestamp)
          else mret ()
      end
  | removed =>
      info ← activeSurfaces_get surface_;
      match info with
      | Some info =>
          old ← deref info;
          if bool_decide (element old = element_)
          then
            assign info (with_removeFlowlet currFlowlet);;
            assign info (with_removeTime (Some timestamp));;
            activeSurfaces_delete surface_;;
            emitMutationEvent action info
          else mret ()
      | None => mret ()
      end
  end
  end.

(** ** Runs

    What happens to the tracker over time: the observer delivers a
    notification on [al_surface_mount] or [al_surface_unmount], or some
    other publisher draws from the shared index generator. *)
Inductive Step :=
  | Notify (w : Ambient) (event_ : ALChannelSurfaceEventData) (action : Action)
  | OtherIndexDraw.

Definition step (x : Step) : M unit :=
  match x with
  | Notify w event_ action => processNode w event_ action
  | OtherIndexDraw => ALEventIndex_getNextEventIndex;; mret ()
  end.

Fixpoint run (steps : list Step) : M unit :=
  match steps with
  | [] => mret ()
  | x :: steps' => step x;; run steps'
  end.

(** The state when [publish] returns: nothing tracked, nothing emitted;
    the bags and the generator are whatever the page has. *)
Definition init (bags : gmap MetaRef ALMetadata) (g : EventIndexState) : State :=
  {| heap := []; activeSurfaces := ∅; metadataStore := bags;
     eventStore := []; channel := []; eventIndexState := g |}.

Definition reachable (st : State) : Prop :=
  ∃ bags g steps, run steps (init bags g) = Ok () st.

(** The events handed to the channel so far, oldest first. *)
Definition emitted (st : State) : list ALSurfaceMutationEventData :=
  omap (λ x, eventStore st !! payload x) (channel st).

(** The record a surface is tracked by. *)
Definition open_record (st : State) (s : string) : option SurfaceInfo :=
  r ← activeSurfaces st !! s; heap st !! r.

(** ** The three transitions, written out

    The states [processNode] ends in on its three paths that change
    anything; the lemmas of the next part prove that it does. *)

(** The bag at [m] after [bag[key] = getFullName()] when a flowlet was
    captured. *)
Definition stamp_flowlet (m : MetaRef) (key : string) (f : option ALFlowlet)
    (bags : gmap MetaRef ALMetadata) : gmap MetaRef ALMetadata :=
  match f with
  | Some f => <[m := <[key := getFullName f]> (bags !!! m)]> bags
  | None => bags
  end.

(** The record literal of the first-open path. *)
Definition new_record (w : Ambient) (event_ : ALChannelSurfaceEventData)
    (s : string) : SurfaceInfo :=
  let reactComponentData :=
    if cacheElementReactInfo then getReactComponentData (event_element event_)
    else None in
  {| surface := s;
     element := event_element event_;
     addTime := performanceAbsoluteNow w;
     removeTime := None;
     flowlet := event_flowlet event_;
     addFlowlet := flowletManager_top w;
     reactComponentName := fst <$> reactComponentData;
     reactComponentStack := snd <$> reactComponentData;
     elementText :=
       getElementTextEvent
         (if cacheElementReactInfo then Some (event_element event_) else None) s;
     removeFlowlet := None;
     mountEvent := None;
     metadata := event_metadata event_ |}.

Definition mount_event (info : SurfaceInfo) (index : Z) : ALSurfaceMutationEventData :=
  {| spread := info;
     event := mount_component;
     eventTimestamp := addTime info;
     eventIndex := index;
     autoLoggingID := getOrSetAutoLoggingID (element info);
     mountedDuration := None |}.

Definition unmount_event (info : SurfaceInfo) (m : EventRef) (t : Q) (index : Z)
    : ALSurfaceMutationEventData :=
  {| spread := with_mountEvent (Some m) info;
     event := unmount_component;
     eventTimestamp := t;
     eventIndex := index;
     autoLoggingID := getOrSetAutoLoggingID (element info);
     mountedDuration := Some ((t - addTime info) / 1000)%Q |}.

(** First open of surface [s]. *)
Definition opened (w : Ambient) (event_ : ALChannelSurfaceEventData)
    (s : string) (st : State) : State :=
  let info := new_record w event_ s in
  let e := length (eventStore st) in
  sent e
    {| heap := heap st ++ [with_mountEvent (Some e) info];
       activeSurfaces := <[s := length (heap st)]> (activeSurfaces st);
       metadataStore :=
         stamp_flowlet (metadata info) "add_flowlet" (addFlowlet info)
           (metadataStore st);
       eventStore :=
         eventStore st ++ [mount_event info (getNextEventIndex (eventIndexState st)).1];
       channel := channel st;
       eventIndexState := (getNextEventIndex (eventIndexState st)).2 |}.

(** The record at [r] after the ancestor promotion. *)
Definition promote (w : Ambient) (event_ : ALChannelSurfaceEventData)
    (old : SurfaceInfo) : SurfaceInfo :=
  with_addTime (performanceAbsoluteNow w)
    (with_addFlowlet (flowletManager_top w)
       (with_element (event_element event_) old)).

Definition promoted (w : Ambient) (event_ : ALChannelSurfaceEventData)
    (r : InfoRef) (old : SurfaceInfo) (st : State) : State :=
  {| heap := <[r := promote w event_ old]> (heap st);
     activeSurfaces := activeSurfaces st;
     metadataStore := metadataStore st;
     eventStore := eventStore st;
     channel := channel st;
     eventIndexState := eventIndexState st |}.

(** The record at [r] as the matching close stamps it. *)
Definition stamp_removal (w : Ambient) (old : SurfaceInfo) : SurfaceInfo :=
  with_removeTime (Some (performanceAbsoluteNow w))
    (with_removeFlowlet (flowletManager_top w) old).

(** Matching close of surface [s], whose record at [r] holds mount event [m]. *)
Definition closed (w : Ambient) (s : string) (r : InfoRef) (old : SurfaceInfo)
    (m : EventRef) (st : State) : State :=
  let info := stamp_removal w old in
  sent (length (eventStore st))
    {| heap := <[r := info]> (heap st);
       activeSurfaces := delete s (activeSurfaces st);
       metadataStore :=
         stamp_flowlet (metadata info) "remove_flowlet" (removeFlowlet info)
           (metadataStore st);
       eventStore :=
         eventStore st ++
           [unmount_event info m (performanceAbsoluteNow w)
              (getNextEventIndex (eventIndexState st)).1];
       channel := channel st;
       eventIndexState := (getNextEventIndex (eventIndexState st)).2 |}.

(** The node kinds [processNode] goes on with. *)
Definition trackable (e : Element) : Prop :=
  instanceofHTMLElement e = true ∧ regexp_LINK_SCRIPT_test (nodeName e) = false.

(** The inputs [processNode] drops: a node of an untrackable kind, no
    surface id, a removal for a surface that is not tracked or for a node
    other than the tracked one, an addition of the tracked node again or of
    a node that does not contain it. *)
Inductive ignorable (st : State) (w : Ambient) (event_ : ALChannelSurfaceEventData)
    : Action → Prop :=
  | ignorable_untrackable action :
      ¬ trackable (event_element event_) →
      ignorable st w event_ action
  | ignorable_no_surface action :
      event_surface event_ = None →
      ignorable st w event_ action
  | ignorable_removed_untracked s :
      event_surface event_ = Some s →
      activeSurfaces st !! s = None →
      ignorable st w event_ removed
  | ignorable_removed_other_node s old :
      event_surface event_ = Some s →
      open_record st s = Some old →
      element old ≠ event_element event_ →
      ignorable st w event_ removed
  | ignorable_added_same_node s old :
      event_surface event_ = Some s →
      open_record st s = Some old →
      event_element event_ = element old →
      ignorable st w event_ added
  | ignorable_added_unrelated s old :
      event_surface event_ = Some s →
      open_record st s = Some old →
      contains w (event_element event_) (element old) = false →
      ignorable st w event_ added.

(** The paths through [processNode] as a relation between the state before
    and the state after. *)
Inductive path (w : Ambient) (event_ : ALChannelSurfaceEventData) (st : State)
    : Action → State → Prop :=
  | path_ignored action :
      ignorable st w event_ action →
      path w event_ st action st
  | path_opened s :
      trackable (event_element event_) →
      event_surface event_ = Some s →
      activeSurfaces st !! s = None →
      path w event_ st added (opened w event_ s st)
  | path_promoted s r old :
      trackable (event_element event_) →
      event_surface event_ = Some s →
      activeSurfaces st !! s = Some r →
      heap st !! r = Some old →
      event_element event_ ≠ element old →
      contains w (event_element event_) (element old) = true →
      path w event_ st added (promoted w event_ r old st)
  | path_closed s r old m :
      trackable (event_element event_) →
      event_surface event_ = Some s →
      activeSurfaces st !! s = Some r →
      heap st !! r = Some old →
      element old = event_element event_ →
      mountEvent old = Some m →
      path w event_ st removed (closed w s r old m st).

(** The state after another publisher's draw from the index generator. *)
Definition drawn (st : State) : State :=
  {| heap := heap st; activeSurfaces := activeSurfaces st;
     metadataStore := metadataStore st; eventStore := eventStore st;
     channel := channel st;
     eventIndexState := (getNextEventIndex (eventIndexState st)).2 |}.

(** ** The invariant of the stores

    Every tracked surface leads to a record filed under its own id whose
    [mountEvent] is the address of a mount event sharing the record's
    metadata bag, and whose node passed the guard; the channel has received
    every event object, in order of creation. *)
Definition mounted (st : State) (info : SurfaceInfo) : Prop :=
  ∃ m mev,
    mountEvent info = Some m ∧ eventStore st !! m = Some mev
    ∧ event mev = mount_component
    ∧ metadata (spread mev) = metadata info.

Definition wf (st : State) : Prop :=
  (∀ s r, activeSurfaces st !! s = Some r →
     ∃ info, heap st !! r = Some info ∧ surface info = s
             ∧ trackable (element info) ∧ mounted st info)
  ∧ payload <$> channel st = seq 0 (length (eventStore st)).

(** The shape of an unmount event: built from a record holding a mount
    event, stamped with the removal time it reports, its duration computed
    from the [addTime] it copied. *)
Definition unmount_shape (uev : ALSurfaceMutationEventData) : Prop :=
  event uev = unmount_component →
  is_Some (mountEvent (spread uev))
  ∧ removeTime (spread uev) = Some (eventTimestamp uev)
  ∧ mountedDuration uev =
      Some ((eventTimestamp uev - addTime (spread uev)) / 1000)%Q.

(** The clock readings of a run, in order. *)
Definition timestamps (steps : list Step) : list Q :=
  omap (λ x, match x with
             | Notify w _ _ => Some (performanceAbsoluteNow w)
             | OtherIndexDraw => None
             end) steps.

(** The clock never runs backwards over the run. *)
Definition monotonic_clock (steps : list Step) : Prop :=
  StronglySorted Qle (timestamps steps).

(** No record was added later than a reading the clock has yet to give. *)
Definition before_clock (steps : list Step) (st : State) : Prop :=
  ∀ r info, heap st !! r = Some info →
    Forall (Qle (addTime info)) (timestamps steps).

(** No unmount event was stamped before its record was added. *)
Definition nonnegative_stay (uev : ALSurfaceMutationEventData) : Prop :=
  event uev = unmount_component →
  (addTime (spread uev) <= eventTimestamp uev)%Q.

(** Each draw from the index generator returns more than the draw before. *)
Definition increasing_generator : Prop :=
  ∀ g, (getNextEventIndex g).1 < (getNextEventIndex (getNextEventIndex g).2).1.

(** Every index handed out so far is below the next draw. *)
Definition below_next_draw (st : State) : Prop :=
  Forall (λ ev, eventIndex ev < (getNextEventIndex (eventIndexState st)).1)
    (eventStore st).

End Publish.

Arguments Ok {H A} a st.
Arguments AssertionFailed {H A} msg.
Arguments InvalidRef {H A}.

(** * [publish] and what the event store holds *)

Section Listeners.
Context `{Collaborators}.

(** The two channel events [publish] listens to. *)
Inductive SurfaceChannelEvent := al_surface_mount | al_surface_unmount.

(** [publish(options)]: the listener it adds for each of the two events.
    [channel] and [flowletManager] of the options are the channel log and
    the ambient of the call; every call of [publish] closes over the one
    module-level [activeSurfaces]. *)
Definition publish (cacheElementReactInfo : bool) (name : SurfaceChannelEvent)
    (w : Ambient) (event_ : ALChannelSurfaceEventData) : M unit :=
  match name with
  | al_surface_mount => processNode cacheElementReactInfo w event_ added
  | al_surface_unmount => processNode cacheElementReactInfo w event_ removed
  end.

#[global] Instance EventName_eq_dec : EqDecision EventName.
Proof. solve_decision. Defined.

(** How many events of one kind a store holds. *)
Definition count_events (k : EventName) (evs : list ALSurfaceMutationEventData) : nat :=
  length (filter (λ ev, event ev = k) evs).

(** The object at [e] is an unmount event embedding the object at [m]. *)
Definition embeds (st : State) (e m : EventRef) : Prop :=
  ∃ uev, eventStore st !! e = Some uev
         ∧ event uev = unmount_component
         ∧ mountEvent (spread uev) = Some m.

(** The object at [m] is the mount event of surface [s] with bag [b]. *)
Definition mount_of (st : State) (m : EventRef) (s : string) (b : MetaRef) : Prop :=
  ∃ mev, eventStore st !! m = Some mev
         ∧ event mev = mount_component
         ∧ surface (spread mev) = s
         ∧ metadata (spread mev) = b.

(** Mounts and unmounts pair up: an unmount embeds an earlier mount of
    its surface, no mount is embedded twice, and the mount a tracked
    record holds is that surface's and not embedded yet. *)
Definition pairing (st : State) : Prop :=
  (∀ e m uev, eventStore st !! e = Some uev → event uev = unmount_component →
     mountEvent (spread uev) = Some m →
     (m < e)%nat ∧ mount_of st m (surface (spread uev)) (metadata (spread uev)))
  ∧ (∀ e1 e2 m, embeds st e1 m → embeds st e2 m → e1 = e2)
  ∧ (∀ s info m, open_record st s = Some info → mountEvent info = Some m →
       mount_of st m s (metadata info) ∧ ∀ e, ¬ embeds st e m).

(** What every emitted object carries, whichever its kind. *)
Definition event_shape (ev : ALSurfaceMutationEventData) : Prop :=
  trackable (element (spread ev))
  ∧ autoLoggingID ev = getOrSetAutoLoggingID (element (spread ev))
  ∧ (event ev = mount_component →
       eventTimestamp ev = addTime (spread ev)
       ∧ mountedDuration ev = None
       ∧ mountEvent (spread ev) = None
       ∧ removeTime (spread ev) = None
       ∧ removeFlowlet (spread ev) = None).

(** No event in the store was stamped later than a reading the clock has
    yet to give. *)
Definition stamped_before (steps : list Step) (st : State) : Prop :=
  Forall (λ ev, Forall (Qle (eventTimestamp ev)) (timestamps steps)) (eventStore st).

(** The fields of a record that are set once, at its creation or, for
    [mountEvent], by the assignment that follows it. *)
Definition same_fixed_fields (i i' : SurfaceInfo) : Prop :=
  surface i' = surface i
  ∧ flowlet i' = flowlet i
  ∧ metadata i' = metadata i
  ∧ reactComponentName i' = reactComponentName i
  ∧ reactComponentStack i' = reactComponentStack i
  ∧ elementText i' = elementText i
  ∧ mountEvent i' = mountEvent i.

End Listeners.

(** * A page to run the tracker on

    Concrete collaborators and the nodes, flowlets and notifications of the
    scenarios: a counter as index generator, the node id as logging id. *)
Module Scenario.

#[export] Instance collaborators : Collaborators := {|
  ALID := nat;
  ALElementTextEvent := option nat;
  ComponentName := string;
  ComponentStack := list string;
  getOrSetAutoLoggingID := elementId;
  getReactComponentData := λ e, Some (nodeName e, [nodeName e]);
  getElementTextEvent := λ e _, elementId <$> e;
  EventIndexState := Z;
  getNextEventIndex := λ g, (g + 1, g + 1);
|}.

Definition N1 : Element :=
  {| elementId := 1; instanceofHTMLElement := true; nodeName := "DIV" |}.
Definition N2 : Element :=
  {| elementId := 2; instanceofHTMLElement := true; nodeName := "SECTION" |}.
Definition N3 : Element :=
  {| elementId := 3; instanceofHTMLElement := true; nodeName := "SPAN" |}.
(** A custom element around [N1]. *)
Definition card : Element :=
  {| elementId := 4; instanceofHTMLElement := true; nodeName := "MY-LINK-CARD" |}.

(** The tree: [card] and [N2] contain [N1]; every node contains itself. *)
Definition dom (a b : Element) : bool :=
  bool_decide (a = b) || bool_decide ((a = N2 ∨ a = card) ∧ b = N1).

Definition click : ALFlowlet :=
  {| flowletId := 1; getFullName := "/root/click" |}.
Definition navigate : ALFlowlet :=
  {| flowletId := 2; getFullName := "/root/navigate" |}.

Definition at_time (t : Q) (top : option ALFlowlet) : Ambient :=
  {| performanceAbsoluteNow := t; flowletManager_top := top; contains := dom |}.

Definition notification (e : Element) (s : string) : ALChannelSurfaceEventData :=
  {| event_element := e; event_surface := Some s;
     event_flowlet := click; event_metadata := 7%nat |}.

(** [N1] mounts surface S1. *)
Definition mount_S1 : list Step :=
  [Notify (at_time 1000 (Some click)) (notification N1 "S1") added].

(** Scenario A of the specification up to the promotion to [N2]. *)
Definition promote_S1 : list Step :=
  mount_S1 ++ [Notify (at_time 1500 (Some click)) (notification N2 "S1") added;
               OtherIndexDraw].

(** Scenario A in full. *)
Definition scenarioA : list Step :=
  promote_S1 ++ [Notify (at_time 4000 (Some navigate)) (notification N2 "S1") removed].

(** The page before any notification: no bags, the counter at zero. *)
Definition empty_page : State := init ∅ 0.

(** The state a run from the empty page ends in (the empty page when it
    fails). *)
Definition state_after (steps : list Step) : State :=
  match run true steps empty_page with
  | Ok _ st => st
  | _ => empty_page
  end.

(** The record of S1 after [mount_S1] and after [promote_S1]. *)
Definition record_N1 : SurfaceInfo :=
  {| surface := "S1"; element := N1; addTime := 1000; removeTime := None;
     flowlet := click; addFlowlet := Some click; removeFlowlet := None;
     reactComponentName := Some "DIV"; reactComponentStack := Some ["DIV"];
     elementText := Some 1%nat; mountEvent := Some 0%nat; metadata := 7%nat |}.

(** The promotion of S1 to [N2], on its own. *)
Definition promotion : Step :=
  Notify (at_time 1500 (Some click)) (notification N2 "S1") added.

(** The close of S1 by its reference node [N2]. *)
Definition closing : Ambient := at_time 4000 (Some navigate).

Definition record_N2 : SurfaceInfo :=
  {| surface := "S1"; element := N2; addTime := 1500; removeTime := None;
     flowlet := click; addFlowlet := Some click; removeFlowlet := None;
     reactComponentName := Some "DIV"; reactComponentStack := Some ["DIV"];
     elementText := Some 1%nat; mountEvent := Some 0%nat; metadata := 7%nat |}.

(** Surface S2 mounts under [N3] while S1 is open. *)
Definition mount_S2 : Step :=
  Notify (at_time 1200 None) (notification N3 "S2") added.

(** The close of Scenario A as a run of its own. *)
Definition close_S1 : list Step :=
  [Notify closing (notification N2 "S1") removed].

(** A state no run reaches: S1 tracked by a record without mount event. *)
Definition never_mounted : State :=
  {| heap := [with_mountEvent None record_N1];
     activeSurfaces := {["S1" := 0%nat]};
     metadataStore := ∅; eventStore := []; channel := [];
     eventIndexState := 0 |}.

End Scenario.

(** * Properties *)

Section Properties.
Context `{Collaborators}.
Variable cacheElementReactInfo : bool.

Abbreviation processNode' := (processNode cacheElementReactInfo).

Ltac unfold_ops :=
  unfold mbind, M_bind, mret, M_ret, activeSurfaces_get, activeSurfaces_set,
    activeSurfaces_delete, new_SurfaceInfo, deref, assign, metadata_set,
    new_event, channel_emit, ALEventIndex_getNextEventIndex, assert.

(** ** [emitMutationEvent], path by path *)

Lemma emitMutationEvent_added r info st :
  heap st !! r = Some info →
  emitMutationEvent added r st =
    Ok ()
      (sent (length (eventStore st))
         {| heap :=
              <[r := with_mountEvent (Some (length (eventStore st))) info]> (heap st);
            activeSurfaces := activeSurfaces st;
            metadataStore :=
              stamp_flowlet (metadata info) "add_flowlet" (addFlowlet info)
                (metadataStore st);
            eventStore :=
              eventStore st
                ++ [mount_event info (getNextEventIndex (eventIndexState st)).1];
            channel := channel st;
            eventIndexState := (getNextEventIndex (eventIndexState st)).2 |}).
Proof.
  intros Hr. unfold emitMutationEvent, stamp_flowlet, mount_event. unfold_ops.
  rewrite Hr.
  destruct (addFlowlet info) as [f|]; cbn;
    destruct (getNextEventIndex (eventIndexState st)) as [i g]; cbn;
    rewrite Hr; reflexivity.
Qed.

Lemma emitMutationEvent_removed r info m t st :
  heap st !! r = Some info →
  mountEvent info = Some m →
  removeTime info = Some t →
  emitMutationEvent removed r st =
    Ok ()
      (sent (length (eventStore st))
         {| heap := heap st;
            activeSurfaces := activeSurfaces st;
            metadataStore :=
              stamp_flowlet (metadata info) "remove_flowlet" (removeFlowlet info)
                (metadataStore st);
            eventStore :=
              eventStore st ++
                [unmount_event info m t (getNextEventIndex (eventIndexState st)).1];
            channel := channel st;
            eventIndexState := (getNextEventIndex (eventIndexState st)).2 |}).
Proof.
  intros Hr Hm Ht. unfold emitMutationEvent, stamp_flowlet, unmount_event. unfold_ops.
  rewrite Hr, Hm, Ht.
  destruct (removeFlowlet info) as [f|]; cbn;
    destruct (getNextEventIndex (eventIndexState st)) as [i g]; reflexivity.
Qed.

(** The [assert] of the unmount path: it lets through exactly the records
    that hold a mount event and a removal time. *)
Lemma emitMutationEvent_removed_inv r st st' :
  emitMutationEvent removed r st = Ok () st' →
  ∃ info m t,
    heap st !! r = Some info ∧ mountEvent info = Some m ∧ removeTime info = Some t.
Proof.
  unfold emitMutationEvent. unfold_ops.
  destruct (heap st !! r) as [info|]; [|discriminate].
  destruct (mountEvent info) as [m|] eqn:Hm; [|discriminate].
  destruct (removeTime info) as [t|] eqn:Ht; [|discriminate].
  intros _. by exists info, m, t.
Qed.

Lemma emitMutationEvent_removed_assert r info st :
  heap st !! r = Some info →
  mountEvent info = None ∨ removeTime info = None →
  emitMutationEvent removed r st =
    AssertionFailed "Missing mutaion info for unmounting".
Proof.
  intros Hr Hnull. unfold emitMutationEvent. unfold_ops. rewrite Hr.
  destruct Hnull as [-> | Ht]; [reflexivity|].
  rewrite Ht. destruct (mountEvent info); reflexivity.
Qed.

(** ** [processNode], path by path *)

Lemma list_insert_snoc {A} (l : list A) (x y : A) :
  <[length l := y]> (l ++ [x]) = l ++ [y].
Proof.
  replace (length l) with (length l + 0)%nat by lia. by rewrite insert_app_r.
Qed.

Lemma processNode_opened w event_ s st :
  trackable (event_element event_) →
  event_surface event_ = Some s →
  activeSurfaces st !! s = None →
  processNode' w event_ added st = Ok () (opened cacheElementReactInfo w event_ s st).
Proof.
  intros [Hh Hr] Hs Hnone. unfold processNode.
  rewrite Hh, Hr, Hs. cbn [negb orb].
  unfold mbind at 1, M_bind at 1, activeSurfaces_get. rewrite Hnone.
  unfold mbind at 1, M_bind at 1, new_SurfaceInfo.
  unfold mbind at 1, M_bind at 1, activeSurfaces_set.
  erewrite emitMutationEvent_added; last by apply list_lookup_middle.
  cbn [heap activeSurfaces metadataStore eventStore channel eventIndexState].
  rewrite list_insert_snoc. unfold opened, new_record.
  by destruct cacheElementReactInfo.
Qed.

Lemma processNode_promoted w event_ s r old st :
  trackable (event_element event_) →
  event_surface event_ = Some s →
  activeSurfaces st !! s = Some r →
  heap st !! r = Some old →
  event_element event_ ≠ element old →
  contains w (event_element event_) (element old) = true →
  processNode' w event_ added st = Ok () (promoted w event_ r old st).
Proof.
  intros [Hh Hre] Hs Hmap Hr Hne Hc. unfold processNode.
  rewrite Hh, Hre, Hs. cbn [negb orb]. unfold_ops. rewrite Hmap, Hr.
  rewrite bool_decide_true, Hc by done. cbn.
  pose proof (lookup_lt_Some _ _ _ Hr) as Hlt.
  rewrite Hr. cbn. rewrite list_lookup_insert_eq by done. cbn.
  rewrite list_lookup_insert_eq by (by rewrite length_insert).
  rewrite !list_insert_insert_eq. reflexivity.
Qed.

Lemma processNode_closed w event_ s r old m st :
  trackable (event_element event_) →
  event_surface event_ = Some s →
  activeSurfaces st !! s = Some r →
  heap st !! r = Some old →
  element old = event_element event_ →
  mountEvent old = Some m →
  processNode' w event_ removed st = Ok () (closed w s r old m st).
Proof.
  intros [Hh Hre] Hs Hmap Hr He Hm. unfold processNode.
  rewrite Hh, Hre, Hs. cbn [negb orb].
  unfold mbind at 1, M_bind at 1, activeSurfaces_get. rewrite Hmap.
  unfold mbind at 1, M_bind at 1, deref. rewrite Hr.
  rewrite bool_decide_true by done.
  pose proof (lookup_lt_Some _ _ _ Hr) as Hlt.
  unfold mbind at 1, M_bind at 1, assign. rewrite Hr.
  unfold mbind at 1, M_bind at 1. cbn [heap].
  rewrite list_lookup_insert_eq by done.
  unfold mbind at 1, M_bind at 1, activeSurfaces_delete.
  erewrite emitMutationEvent_removed with (info := stamp_removal w old) (m := m);
    [| cbn; rewrite list_lookup_insert_eq; [done | by rewrite length_insert] | done | done ].
  cbn. rewrite list_insert_insert_eq. reflexivity.
Qed.

Lemma open_record_Some st s old :
  open_record st s = Some old ↔
  ∃ r, activeSurfaces st !! s = Some r ∧ heap st !! r = Some old.
Proof.
  unfold open_record. destruct (activeSurfaces st !! s) as [r|]; cbn.
  - split; [by exists r | by intros (? & [= <-] & ?)].
  - split; [done | by intros (? & ? & ?)].
Qed.

Lemma processNode_ignored w event_ action st :
  ignorable st w event_ action →
  processNode' w event_ action st = Ok () st.
Proof.
  unfold processNode, trackable.
  destruct (instanceofHTMLElement (event_element event_)) eqn:Hh;
    destruct (regexp_LINK_SCRIPT_test (nodeName (event_element event_))) eqn:Hre;
    cbn [negb orb]; try reflexivity.
  destruct 1 as [a Hn | a Hs | s Hs Hmap | s old Hs Hold Hne
                 | s old Hs Hold He | s old Hs Hold Hc].
  - by destruct Hn.
  - by rewrite Hs.
  - rewrite Hs. unfold_ops. by rewrite Hmap.
  - apply open_record_Some in Hold as (r & Hmap & Hr).
    rewrite Hs. unfold_ops. rewrite Hmap, Hr.
    by rewrite bool_decide_false.
  - apply open_record_Some in Hold as (r & Hmap & Hr).
    rewrite Hs. unfold_ops. rewrite Hmap, Hr.
    by rewrite bool_decide_false by (by intros []).
  - apply open_record_Some in Hold as (r & Hmap & Hr).
    rewrite Hs. unfold_ops. rewrite Hmap, Hr, Hc.
    by rewrite andb_false_r.
Qed.

Lemma path_processNode w event_ action st st' :
  path cacheElementReactInfo w event_ st action st' →
  processNode' w event_ action st = Ok () st'.
Proof.
  destruct 1.
  - by apply processNode_ignored.
  - by apply processNode_opened.
  - by eapply processNode_promoted.
  - by eapply processNode_closed.
Qed.

(** What [processNode] does from any state: one of the four paths, the
    failed assertion (a matching close of a record without mount event),
    or an address without object. *)
Lemma processNode_outcome w event_ action st :
  (∃ st', path cacheElementReactInfo w event_ st action st')
  ∨ (∃ s r old, action = removed ∧ trackable (event_element event_)
       ∧ event_surface event_ = Some s ∧ activeSurfaces st !! s = Some r
       ∧ heap st !! r = Some old ∧ element old = event_element event_
       ∧ mountEvent old = None)
  ∨ (∃ s r, trackable (event_element event_) ∧ event_surface event_ = Some s
       ∧ activeSurfaces st !! s = Some r ∧ heap st !! r = None).
Proof.
  destruct (instanceofHTMLElement (event_element event_)) eqn:Hh;
    [|left; eexists; apply path_ignored, ignorable_untrackable;
      unfold trackable; intros []; congruence].
  destruct (regexp_LINK_SCRIPT_test (nodeName (event_element event_))) eqn:Hre;
    [left; eexists; apply path_ignored, ignorable_untrackable;
      unfold trackable; intros []; congruence|].
  assert (Ht : trackable (event_element event_)) by done.
  destruct (event_surface event_) as [s|] eqn:Hs;
    [|left; eexists; by apply path_ignored, ignorable_no_surface].
  destruct (activeSurfaces st !! s) as [r|] eqn:Hmap.
  - destruct (heap st !! r) as [old|] eqn:Hr;
      [|right; right; by exists s, r].
    assert (Hold : open_record st s = Some old)
      by (apply open_record_Some; eauto).
    destruct action.
    + destruct (decide (event_element event_ = element old)) as [He|Hne];
        [left; eexists; by eapply path_ignored, ignorable_added_same_node|].
      destruct (contains w (event_element event_) (element old)) eqn:Hc.
      * left; eexists; by eapply path_promoted.
      * left; eexists; by eapply path_ignored, ignorable_added_unrelated.
    + destruct (decide (element old = event_element event_)) as [He|Hne];
        [|left; eexists; by eapply path_ignored, ignorable_removed_other_node].
      destruct (mountEvent old) as [m|] eqn:Hm.
      * left; eexists; by eapply path_closed.
      * right; left. by exists s, r, old.
  - destruct action.
    + left; eexists; by eapply path_opened.
    + left; eexists; by eapply path_ignored, ignorable_removed_untracked.
Qed.

Lemma processNode_assert w event_ s r old st :
  trackable (event_element event_) →
  event_surface event_ = Some s →
  activeSurfaces st !! s = Some r →
  heap st !! r = Some old →
  element old = event_element event_ →
  mountEvent old = None →
  processNode' w event_ removed st =
    AssertionFailed "Missing mutaion info for unmounting".
Proof.
  intros [Hh Hre] Hs Hmap Hr He Hm. unfold processNode.
  rewrite Hh, Hre, Hs. cbn [negb orb].
  unfold mbind at 1, M_bind at 1, activeSurfaces_get. rewrite Hmap.
  unfold mbind at 1, M_bind at 1, deref. rewrite Hr.
  rewrite bool_decide_true by done.
  pose proof (lookup_lt_Some _ _ _ Hr) as Hlt.
  unfold mbind at 1, M_bind at 1, assign. rewrite Hr.
  unfold mbind at 1, M_bind at 1. cbn [heap].
  rewrite list_lookup_insert_eq by done.
  unfold mbind at 1, M_bind at 1, activeSurfaces_delete.
  erewrite emitMutationEvent_removed_assert with (info := stamp_removal w old);
    [done | cbn; rewrite list_lookup_insert_eq; [done | by rewrite length_insert] | by left].
Qed.

Lemma processNode_invalid w event_ action s r st :
  trackable (event_element event_) →
  event_surface event_ = Some s →
  activeSurfaces st !! s = Some r →
  heap st !! r = None →
  processNode' w event_ action st = InvalidRef.
Proof.
  intros [Hh Hre] Hs Hmap Hr. unfold processNode.
  rewrite Hh, Hre, Hs. cbn [negb orb].
  destruct action; unfold_ops; by rewrite Hmap, Hr.
Qed.

(** [processNode] ends normally exactly along [path]. *)
Lemma processNode_path w event_ action st st' :
  processNode' w event_ action st = Ok () st' ↔
  path cacheElementReactInfo w event_ st action st'.
Proof.
  split; [|apply path_processNode].
  intros Hrun.
  destruct (processNode_outcome w event_ action st)
    as [[st'' Hp] | [(s & r & old & -> & ? & ? & ? & ? & ? & ?) | (s & r & ? & ? & ? & ?)]].
  - pose proof (path_processNode _ _ _ _ _ Hp) as Hrun'.
    rewrite Hrun in Hrun'. by injection Hrun' as ->.
  - erewrite processNode_assert in Hrun; done.
  - erewrite processNode_invalid in Hrun; done.
Qed.

(** ** Runs *)

Lemma step_inv x st st' :
  step cacheElementReactInfo x st = Ok () st' →
  (∃ w event_ action,
     x = Notify w event_ action ∧ path cacheElementReactInfo w event_ st action st')
  ∨ (x = OtherIndexDraw ∧ st' = drawn st).
Proof.
  destruct x as [w event_ action|]; cbn.
  - intros Hp%processNode_path. left. by exists w, event_, action.
  - unfold_ops. unfold drawn.
    destruct (getNextEventIndex (eventIndexState st)) as [i g]; cbn.
    intros [= <-]. by right.
Qed.

Lemma run_cons_inv x steps st st' :
  run cacheElementReactInfo (x :: steps) st = Ok () st' →
  ∃ st1, step cacheElementReactInfo x st = Ok () st1
         ∧ run cacheElementReactInfo steps st1 = Ok () st'.
Proof.
  cbn. unfold mbind, M_bind.
  destruct (step cacheElementReactInfo x st) as [[] st1| |]; [|done..].
  intros Hrun. by exists st1.
Qed.

Lemma run_snoc steps x st st1 st' :
  run cacheElementReactInfo steps st = Ok () st1 →
  step cacheElementReactInfo x st1 = Ok () st' →
  run cacheElementReactInfo (steps ++ [x]) st = Ok () st'.
Proof.
  revert st. induction steps as [|y steps IH]; intros st.
  - cbn. unfold_ops. intros [= ->] ->. done.
  - intros (st2 & Hy & Hrest)%run_cons_inv Hx.
    cbn. unfold mbind, M_bind. rewrite Hy. by apply IH.
Qed.

(** An invariant of the steps holds in every reachable state. *)
Lemma run_invariant (P : State → Prop) steps st st' :
  (∀ x st1 st2, P st1 → step cacheElementReactInfo x st1 = Ok () st2 → P st2) →
  P st →
  run cacheElementReactInfo steps st = Ok () st' →
  P st'.
Proof.
  intros Hstep. revert st. induction steps as [|x steps IH]; intros st HP.
  - cbn. unfold_ops. by intros [= <-].
  - intros (st1 & Hx & Hrest)%run_cons_inv. eauto.
Qed.

(** ** The invariant holds *)

Lemma mounted_store_app st st' info :
  (∃ evs, eventStore st' = eventStore st ++ evs) →
  mounted st info → mounted st' info.
Proof.
  intros [evs Hev] (m & mev & ? & Hm & ? & ?). exists m, mev.
  rewrite Hev. split_and!; try done. by apply lookup_app_l_Some.
Qed.

Lemma wf_init bags g : wf (init bags g).
Proof. split; [|done]. intros s r. cbn. by rewrite lookup_empty. Qed.

Lemma wf_path w event_ action st st' :
  wf st → path cacheElementReactInfo w event_ st action st' → wf st'.
Proof.
  intros [Hlive Hch] Hp.
  destruct Hp as [ | s Ht Hs Hnone | s r old Ht Hs Hmap Hr Hne Hc
                   | s r old m Ht Hs Hmap Hr He Hm ].
  - by split.
  - split; cbn.
    + intros s' r'. rewrite lookup_insert. case_decide as Hss.
      * intros [= <-]. subst s'. eexists. split; [apply list_lookup_middle; done|].
        split; [done|]. split; [done|].
        eexists _, _. cbn. split; [done|]. split; [by apply list_lookup_middle|]. done.
      * intros Hr'. destruct (Hlive _ _ Hr') as (info & Hi & ? & ? & Hmo).
        exists info. split; [by apply lookup_app_l_Some|]. split; [done|].
        split; [done|].
        eapply mounted_store_app; [|done]. cbn. eauto.
    + by rewrite fmap_app, Hch, length_app, seq_app.
  - split; [|done]. cbn. intros s' r' Hr'.
    destruct (Hlive _ _ Hr') as (info & Hi & Hsf & Htr & Hmo).
    destruct (decide (r' = r)) as [->|Hrr].
    + rewrite Hr in Hi. injection Hi as <-.
      exists (promote w event_ old).
      split; [apply list_lookup_insert_eq; by eapply lookup_lt_Some|]. done.
    + exists info. by rewrite list_lookup_insert_ne.
  - split; cbn.
    + intros s' r'. rewrite lookup_delete. case_decide as Hss; [done|].
      intros Hr'. destruct (Hlive _ _ Hr') as (info & Hi & Hsf & Htr & Hmo).
      destruct (Hlive _ _ Hmap) as (old' & Hi' & Hsf' & _).
      assert (r' ≠ r) by (intros ->; congruence).
      exists info. rewrite list_lookup_insert_ne by done.
      split; [done|]. split; [done|]. split; [done|].
      eapply mounted_store_app; [|done]. cbn. eauto.
    + by rewrite fmap_app, Hch, length_app, seq_app.
Qed.

Lemma wf_step x st st' :
  wf st → step cacheElementReactInfo x st = Ok () st' → wf st'.
Proof.
  intros Hwf [(w & event_ & action & -> & Hp) | [-> ->]]%step_inv.
  - by eapply wf_path.
  - done.
Qed.

Lemma reachable_wf st : reachable cacheElementReactInfo st → wf st.
Proof.
  intros (bags & g & steps & Hrun).
  refine (run_invariant wf steps (init bags g) st _ (wf_init bags g) Hrun).
  intros x st1 st2. apply wf_step.
Qed.

Lemma reachable_step x st st' :
  reachable cacheElementReactInfo st →
  step cacheElementReactInfo x st = Ok () st' →
  reachable cacheElementReactInfo st'.
Proof.
  intros (bags & g & steps & Hrun) Hx.
  exists bags, g, (steps ++ [x]). by eapply run_snoc.
Qed.

(** From a state satisfying the invariant [processNode] returns. *)
Lemma wf_processNode_returns w event_ action st :
  wf st → ∃ st', processNode' w event_ action st = Ok () st'.
Proof.
  intros [Hlive _].
  destruct (processNode_outcome w event_ action st)
    as [[st' Hp] | [(s & r & old & -> & ? & ? & Hmap & Hr & ? & Hm)
                   | (s & r & ? & ? & Hmap & Hr)]].
  - exists st'. by apply path_processNode.
  - destruct (Hlive _ _ Hmap) as (info & Hi & _ & _ & (m & ? & Hm' & _)). congruence.
  - destruct (Hlive _ _ Hmap) as (info & Hi & _). congruence.
Qed.

(** ** The channel and the event store *)

Lemma omap_lookup_seq {A} (k l : list A) :
  omap (λ i, (k ++ l) !! i) (seq (length k) (length l)) = l.
Proof.
  revert k. induction l as [|x l IH]; intros k; [done|].
  cbn [length seq]. csimpl. rewrite list_lookup_middle by done.
  f_equal. specialize (IH (k ++ [x])).
  rewrite <- app_assoc, length_app, Nat.add_1_r in IH. exact IH.
Qed.

Lemma omap_payload (evs : list ALSurfaceMutationEventData) (xs : list Emission) :
  omap (λ x, evs !! payload x) xs = omap (λ e, evs !! e) (payload <$> xs).
Proof. induction xs as [|x xs IH]; [done|]. csimpl. by rewrite IH. Qed.

Lemma emitted_wf st : wf st → emitted st = eventStore st.
Proof.
  intros [_ Hch]. unfold emitted. rewrite omap_payload, Hch.
  apply (omap_lookup_seq [] (eventStore st)).
Qed.

(** A matching close from a state satisfying the invariant. *)
Lemma wf_close w event_ s old st :
  wf st →
  event_surface event_ = Some s →
  open_record st s = Some old →
  element old = event_element event_ →
  ∃ r m mev,
    activeSurfaces st !! s = Some r ∧ heap st !! r = Some old
    ∧ mountEvent old = Some m ∧ eventStore st !! m = Some mev
    ∧ event mev = mount_component ∧ metadata (spread mev) = metadata old
    ∧ processNode' w event_ removed st = Ok () (closed w s r old m st).
Proof.
  intros [Hlive _] Hs (r & Hmap & Hr)%open_record_Some He.
  destruct (Hlive _ _ Hmap) as (old' & Hr' & _ & Htr & m & mev & Hm & Hmev & Hk & Hmd).
  assert (old' = old) as -> by congruence.
  exists r, m, mev. split_and!; try done.
  eapply processNode_closed; try done. by rewrite <- He.
Qed.

(** * The tracker's properties *)

(** C1: a 'removed' notification for a tracked surface whose node is the
    record's reference node stamps [removeFlowlet] with the top of the
    flowlet stack and [removeTime] with the timestamp taken at entry,
    deletes the record from [activeSurfaces], and emits exactly one
    unmount event; that event's [eventTimestamp] is the [removeTime], its
    [mountEvent] is the address of the mount event the record held, and
    the surface has no record in the map when the event reaches the
    listeners nor afterwards. *)
Theorem C1_matching_close_emits_unmount w event_ s old st :
  reachable cacheElementReactInfo st →
  event_surface event_ = Some s →
  open_record st s = Some old →
  element old = event_element event_ →
  ∃ st' r m mev uev x,
    processNode' w event_ removed st = Ok () st'
    ∧ activeSurfaces st !! s = Some r
    ∧ heap st' !! r = Some (stamp_removal w old)
    ∧ removeFlowlet (stamp_removal w old) = flowletManager_top w
    ∧ removeTime (stamp_removal w old) = Some (performanceAbsoluteNow w)
    ∧ activeSurfaces st' = delete s (activeSurfaces st)
    ∧ open_record st' s = None
    ∧ channel st' = channel st ++ [x]
    ∧ payload x = length (eventStore st)
    ∧ seen_heap x !! r = Some (stamp_removal w old)
    ∧ seen_activeSurfaces x !! s = None
    ∧ emitted st' = emitted st ++ [uev]
    ∧ eventStore st' !! length (eventStore st) = Some uev
    ∧ event uev = unmount_component
    ∧ eventTimestamp uev = performanceAbsoluteNow w
    ∧ removeTime (spread uev) = Some (eventTimestamp uev)
    ∧ removeFlowlet (spread uev) = flowletManager_top w
    ∧ mountEvent old = Some m
    ∧ mountEvent (spread uev) = Some m
    ∧ eventStore st !! m = Some mev
    ∧ eventStore st' !! m = Some mev
    ∧ event mev = mount_component.
Proof.
  intros Hwf%reachable_wf Hs Hold He.
  destruct (wf_close w _ _ _ _ Hwf Hs Hold He)
    as (r & m & mev & Hmap & Hr & Hm & Hmev & Hk & _ & Hrun).
  assert (Hwf' : wf (closed w s r old m st))
    by (eapply wf_path; [done|]; by apply processNode_path).
  eexists _, r, m, mev, _, _. split; [exact Hrun|].
  rewrite !emitted_wf by done. cbn.
  pose proof (lookup_lt_Some _ _ _ Hr) as Hlt.
  split_and!; try done.
  - by apply list_lookup_insert_eq.
  - unfold open_record. cbn. by rewrite lookup_delete_eq.
  - cbn. by apply list_lookup_insert_eq.
  - cbn. by rewrite lookup_delete_eq.
  - by apply list_lookup_middle.
  - by apply lookup_app_l_Some.
Qed.

(** C2: an 'added' notification with a trackable node and a surface id
    that has no open record builds a new record, reading the component
    data and the element text from the node only when
    [cacheElementReactInfo] is set, files it under the surface id, and
    emits exactly one mount event whose [eventTimestamp] is the record's
    [addTime]; the listeners find the record in the map, its [mountEvent]
    set. *)
Theorem C2_first_open_emits_mount w event_ s st :
  trackable (event_element event_) →
  event_surface event_ = Some s →
  activeSurfaces st !! s = None →
  ∃ st' info mev x,
    processNode' w event_ added st = Ok () st'
    ∧ activeSurfaces st' = <[s := length (heap st)]> (activeSurfaces st)
    ∧ heap st' = heap st ++ [info]
    ∧ open_record st' s = Some info
    ∧ surface info = s
    ∧ element info = event_element event_
    ∧ addTime info = performanceAbsoluteNow w
    ∧ addFlowlet info = flowletManager_top w
    ∧ removeTime info = None
    ∧ removeFlowlet info = None
    ∧ flowlet info = event_flowlet event_
    ∧ metadata info = event_metadata event_
    ∧ reactComponentName info =
        (if cacheElementReactInfo
         then fst <$> getReactComponentData (event_element event_) else None)
    ∧ reactComponentStack info =
        (if cacheElementReactInfo
         then snd <$> getReactComponentData (event_element event_) else None)
    ∧ elementText info =
        getElementTextEvent
          (if cacheElementReactInfo then Some (event_element event_) else None) s
    ∧ mountEvent info = Some (length (eventStore st))
    ∧ channel st' = channel st ++ [x]
    ∧ payload x = length (eventStore st)
    ∧ seen_activeSurfaces x !! s = Some (length (heap st))
    ∧ seen_heap x !! length (heap st) = Some info
    ∧ eventStore st' = eventStore st ++ [mev]
    ∧ event mev = mount_component
    ∧ eventTimestamp mev = addTime info.
Proof.
  intros Ht Hs Hnone.
  eexists _, _, _, _. split; [by apply processNode_opened|].
  cbn. split_and!; try done.
  - unfold open_record. cbn. rewrite lookup_insert_eq. cbn.
    by apply list_lookup_middle.
  - by destruct cacheElementReactInfo.
  - by destruct cacheElementReactInfo.
  - cbn. by rewrite lookup_insert_eq.
  - cbn. by apply list_lookup_middle.
Qed.

(** C6: an ignorable input (untrackable node, no surface id, removal for
    an untracked surface or for a node other than the tracked one,
    addition of the tracked node again or of a node that does not contain
    it) makes [processNode] return normally with the state as it was:
    same map, same records, same bags, nothing emitted. *)
Theorem C6_ignorable_is_noop w event_ action st :
  ignorable st w event_ action →
  processNode' w event_ action st = Ok () st.
Proof.
  intros Hig. apply path_processNode. by apply path_ignored.
Qed.

(** ** The node-name test *)

Lemma prefix_append p s : String.prefix p (p +:+ s) = true.
Proof.
  induction p as [|c p IH]; [by destruct s|].
  change (String c p +:+ s) with (String c (p +:+ s)). cbn.
  destruct (Ascii.ascii_dec c c); [done|congruence].
Qed.

Lemma includes_occurrence p pre post : includes p (pre +:+ p +:+ post) = true.
Proof.
  induction pre as [|c pre IH].
  - change (includes p (p +:+ post) = true).
    pose proof (prefix_append p post) as Hp.
    destruct (p +:+ post); cbn [includes]; by rewrite Hp.
  - change (String c pre +:+ p +:+ post) with (String c (pre +:+ p +:+ post)).
    cbn. rewrite IH. apply orb_true_r.
Qed.



(** C10: the guard is the substring test [/LINK|SCRIPT/]: when the node
    name holds LINK or SCRIPT at any offset, [processNode] returns at
    once, for 'added' and for 'removed', without a change to the state
    and without an emission. *)
Theorem C10_link_script_substring_guard w event_ action st pre post :
  nodeName (event_element event_) = pre +:+ "LINK" +:+ post
  ∨ nodeName (event_element event_) = pre +:+ "SCRIPT" +:+ post →
  regexp_LINK_SCRIPT_test (nodeName (event_element event_)) = true
  ∧ processNode' w event_ action st = Ok () st.
Proof.
  intros Hname.
  assert (Hre : regexp_LINK_SCRIPT_test (nodeName (event_element event_)) = true).
  { unfold regexp_LINK_SCRIPT_test. apply orb_true_iff.
    destruct Hname as [-> | ->]; [left|right]; apply includes_occurrence. }
  split; [done|].
  unfold processNode. rewrite Hre, orb_true_r. done.
Qed.

(** C3, for a node that passes the guard: an 'added' notification
    with a trackable node, for a surface that has an open record, where
    the node differs from the record's reference node and contains it,
    writes the node, the flowlet-stack top and the timestamp into the
    record's [element], [addFlowlet] and [addTime] and emits nothing; and
    whenever [processNode] emits, it emits one event, on the first open of
    a surface or on the matching close. *)
Theorem C3_promotion_is_silent :
  (∀ w event_ s old st,
     trackable (event_element event_) →
     event_surface event_ = Some s →
     open_record st s = Some old →
     event_element event_ ≠ element old →
     contains w (event_element event_) (element old) = true →
     ∃ st' r new,
       processNode' w event_ added st = Ok () st'
       ∧ activeSurfaces st !! s = Some r
       ∧ heap st' = <[r := new]> (heap st)
       ∧ open_record st' s = Some new
       ∧ element new = event_element event_
       ∧ addFlowlet new = flowletManager_top w
       ∧ addTime new = performanceAbsoluteNow w
       ∧ new = with_addTime (addTime new)
                 (with_addFlowlet (addFlowlet new) (with_element (element new) old))
       ∧ activeSurfaces st' = activeSurfaces st
       ∧ metadataStore st' = metadataStore st
       ∧ eventStore st' = eventStore st
       ∧ eventIndexState st' = eventIndexState st
       ∧ channel st' = channel st)
  ∧ (∀ w event_ action st st',
       processNode' w event_ action st = Ok () st' →
       channel st' = channel st
       ∨ (∃ x s, channel st' = channel st ++ [x]
            ∧ trackable (event_element event_)
            ∧ event_surface event_ = Some s
            ∧ ((action = added ∧ activeSurfaces st !! s = None)
               ∨ (action = removed
                  ∧ ∃ old, open_record st s = Some old
                           ∧ element old = event_element event_)))).
Proof.
  split.
  - intros w event_ s old st Ht Hs (r & Hmap & Hr)%open_record_Some Hne Hc.
    exists (promoted w event_ r old st), r, (promote w event_ old).
    split; [by eapply processNode_promoted|].
    split_and!; try done.
    apply open_record_Some. exists r. split; [done|]. cbn.
    apply list_lookup_insert_eq. by eapply lookup_lt_Some.
  - intros w event_ action st st' Hp%processNode_path.
    destruct Hp as [ | s Ht Hs Hnone | s r old Ht Hs Hmap Hr Hne Hc
                     | s r old m Ht Hs Hmap Hr He Hm ].
    + by left.
    + right. eexists _, s. split_and!; try done. by left.
    + by left.
    + right. eexists _, s. split_and!; try done.
      right. split; [done|]. exists old. split; [|done].
      apply open_record_Some. eauto.
Qed.

(** ** Unmount events *)

Lemma unmount_shape_path w event_ action st st' :
  Forall unmount_shape (eventStore st) →
  path cacheElementReactInfo w event_ st action st' →
  Forall unmount_shape (eventStore st').
Proof.
  intros Hall Hp.
  destruct Hp as [ | s Ht Hs Hnone | s r old Ht Hs Hmap Hr Hne Hc
                   | s r old m Ht Hs Hmap Hr He Hm ]; try done; cbn.
  - apply Forall_app. split; [done|]. by apply Forall_singleton.
  - apply Forall_app. split; [done|]. apply Forall_singleton.
    intros _. cbn. by split_and!.
Qed.

Lemma unmount_shape_reachable st :
  reachable cacheElementReactInfo st → Forall unmount_shape (eventStore st).
Proof.
  intros (bags & g & steps & Hrun).
  refine (run_invariant (λ st, Forall unmount_shape (eventStore st))
            steps (init bags g) st _ _ Hrun); [|by constructor].
  intros x st1 st2 Hall [(w & event_ & action & -> & Hp) | [-> ->]]%step_inv.
  - by eapply unmount_shape_path.
  - done.
Qed.

Lemma wf_run_returns steps st :
  wf st → ∃ st', run cacheElementReactInfo steps st = Ok () st'.
Proof.
  revert st. induction steps as [|x steps IH]; intros st Hwf.
  - by exists st.
  - assert (∃ st1, step cacheElementReactInfo x st = Ok () st1) as [st1 Hx].
    { destruct x as [w event_ action|]; [by apply wf_processNode_returns|].
      cbn. unfold_ops.
      destruct (getNextEventIndex (eventIndexState st)); by eexists. }
    destruct (IH st1) as [st' Hrest]; [by eapply wf_step|].
    exists st'. cbn. unfold mbind, M_bind. by rewrite Hx.
Qed.

(** C4: in every reachable state each record in [activeSurfaces] holds a
    mount event; from such a state [processNode] and every further run
    return normally, so the assertion of the unmount path does not fail;
    and every unmount event was built from a record holding a mount event
    and a removal time.  (The collaborators return normally: they are
    total functions here.) *)
Theorem C4_mount_event_present_assert_holds st :
  reachable cacheElementReactInfo st →
  (∀ s info, open_record st s = Some info → is_Some (mountEvent info))
  ∧ (∀ w event_ action, ∃ st', processNode' w event_ action st = Ok () st')
  ∧ (∀ steps, ∃ st', run cacheElementReactInfo steps st = Ok () st')
  ∧ (∀ uev, uev ∈ emitted st → event uev = unmount_component →
       is_Some (mountEvent (spread uev)) ∧ is_Some (removeTime (spread uev))).
Proof.
  intros Hreach. pose proof (reachable_wf _ Hreach) as Hwf.
  split_and!.
  - intros s info (r & Hmap & Hr)%open_record_Some.
    destruct Hwf as [Hlive _].
    destruct (Hlive _ _ Hmap) as (info' & Hr' & _ & _ & m & _ & Hm & _).
    assert (info' = info) as -> by congruence. by exists m.
  - intros w event_ action. by apply wf_processNode_returns.
  - intros steps. by apply wf_run_returns.
  - intros uev Hin Hk. rewrite emitted_wf in Hin by done.
    pose proof (unmount_shape_reachable _ Hreach) as Hall.
    rewrite Forall_forall in Hall.
    destruct (Hall uev Hin Hk) as (Hm & Ht & _). split; [done|]. by eexists.
Qed.

(** ** The clock *)

Lemma clock_path w event_ action steps st st' :
  before_clock (Notify w event_ action :: steps) st →
  Forall (Qle (performanceAbsoluteNow w)) (timestamps steps) →
  Forall nonnegative_stay (eventStore st) →
  path cacheElementReactInfo w event_ st action st' →
  before_clock steps st' ∧ Forall nonnegative_stay (eventStore st').
Proof.
  intros Hheap Hnow Hev Hp.
  assert (Hold : ∀ r info, heap st !! r = Some info →
            (addTime info <= performanceAbsoluteNow w)%Q
            ∧ Forall (Qle (addTime info)) (timestamps steps)).
  { intros r info Hr. specialize (Hheap r info Hr). cbn in Hheap.
    by apply Forall_cons in Hheap. }
  destruct Hp as [ | s Ht Hs Hnone | s r old Ht Hs Hmap Hr Hne Hc
                   | s r old m Ht Hs Hmap Hr He Hm ]; unfold before_clock; cbn.
  - split; [|done]. intros r info Hr. by apply (Hold r).
  - split.
    + intros r info [[_ Hr] | [_ <-]]%lookup_snoc_Some; [by apply (Hold r)|done].
    + apply Forall_app. split; [done|]. by apply Forall_singleton.
  - split; [|done]. intros r' info. cbn.
    intros [(-> & <- & _) | [_ Hr']]%list_lookup_insert_Some;
      [done | by apply (Hold r')].
  - split.
    + intros r' info. cbn.
      intros [(<- & <- & _) | [_ Hr']]%list_lookup_insert_Some.
      * by apply (Hold r old).
      * by apply (Hold r').
    + apply Forall_app. split; [done|]. apply Forall_singleton.
      intros _. cbn. by apply (Hold r old).
Qed.

Lemma clock_run steps st st' :
  before_clock steps st →
  monotonic_clock steps →
  Forall nonnegative_stay (eventStore st) →
  run cacheElementReactInfo steps st = Ok () st' →
  Forall nonnegative_stay (eventStore st').
Proof.
  revert st. induction steps as [|x steps IH]; intros st Hheap Hmono Hev.
  - cbn. unfold_ops. by intros [= <-].
  - intros (st1 & Hx & Hrest)%run_cons_inv.
    apply step_inv in Hx as [(w & event_ & action & -> & Hp) | [-> ->]].
    + unfold monotonic_clock in Hmono. cbn in Hmono.
      apply StronglySorted_cons in Hmono as [Hnow Hmono].
      destruct (clock_path _ _ _ _ _ _ Hheap Hnow Hev Hp) as [Hheap1 Hev1].
      by apply (IH st1).
    + by apply (IH (drawn st)).
Qed.

Lemma stay_nonnegative (a t : Q) : (a <= t)%Q → (0 <= (t - a) / 1000)%Q.
Proof.
  intros Hle. unfold Qdiv, Qminus.
  apply Qmult_le_0_compat; [by apply Qle_minus_iff in Hle | done].
Qed.

(** C5: the unmount event of a matching close reports
    [(removeTime - addTime) / 1000] with the [addTime] the record holds
    when it is closed (the one a promotion wrote, if one did); and over a
    run on which the clock never goes back, every emitted unmount event
    reports that quotient for the times it carries, and it is not
    negative. *)
Theorem C5_mounted_duration :
  (∀ w event_ s old st,
     reachable cacheElementReactInfo st →
     event_surface event_ = Some s →
     open_record st s = Some old →
     element old = event_element event_ →
     ∃ st' uev,
       processNode' w event_ removed st = Ok () st'
       ∧ emitted st' = emitted st ++ [uev]
       ∧ event uev = unmount_component
       ∧ addTime (spread uev) = addTime old
       ∧ mountedDuration uev =
           Some ((performanceAbsoluteNow w - addTime old) / 1000)%Q)
  ∧ (∀ bags g steps st,
       run cacheElementReactInfo steps (init bags g) = Ok () st →
       monotonic_clock steps →
       ∀ uev, uev ∈ emitted st → event uev = unmount_component →
         ∃ t d,
           removeTime (spread uev) = Some t
           ∧ mountedDuration uev = Some d
           ∧ d = ((t - addTime (spread uev)) / 1000)%Q
           ∧ (0 <= d)%Q).
Proof.
  split.
  - intros w event_ s old st Hreach Hs Hold He.
    pose proof (reachable_wf _ Hreach) as Hwf.
    destruct (wf_close w _ _ _ _ Hwf Hs Hold He)
      as (r & m & mev & Hmap & Hr & Hm & Hmev & Hk & _ & Hrun).
    assert (Hwf' : wf (closed w s r old m st))
      by (eapply wf_path; [done|]; by apply processNode_path).
    eexists _, _. split; [exact Hrun|].
    rewrite !emitted_wf by done. cbn. by split_and!.
  - intros bags g steps st Hrun Hmono uev Hin Hk.
    assert (Hreach : reachable cacheElementReactInfo st) by (by exists bags, g, steps).
    rewrite emitted_wf in Hin by (by apply reachable_wf).
    pose proof (unmount_shape_reachable _ Hreach) as Hshape.
    assert (Hstay : Forall nonnegative_stay (eventStore st)).
    { by eapply (clock_run steps (init bags g)). }
    rewrite Forall_forall in Hshape, Hstay.
    destruct (Hshape uev Hin Hk) as (_ & Ht & Hd).
    eexists _, _. split_and!; [done..|].
    apply stay_nonnegative. by apply Hstay.
Qed.

(** C7: over a step of any run, the reference node of a record that stays
    open is the same afterwards, unless the step is an 'added'
    notification for the record's surface whose node differs from the
    reference node and contains it, and then the new reference node is
    that node. *)
Theorem C7_reference_node_changes_by_promotion_only x st st' s old new :
  reachable cacheElementReactInfo st →
  step cacheElementReactInfo x st = Ok () st' →
  open_record st s = Some old →
  open_record st' s = Some new →
  element new = element old
  ∨ ∃ w event_,
      x = Notify w event_ added
      ∧ event_surface event_ = Some s
      ∧ element new = event_element event_
      ∧ event_element event_ ≠ element old
      ∧ contains w (event_element event_) (element old) = true.
Proof.
  intros Hwf%reachable_wf Hx (r & Hmap & Hr)%open_record_Some
    (r' & Hmap' & Hr')%open_record_Some.
  apply step_inv in Hx as [(w & event_ & action & -> & Hp) | [-> ->]];
    [|left; unfold drawn in *; cbn [heap activeSurfaces] in *; congruence].
  destruct Hp as [ | s0 Ht Hs Hnone | s0 r0 old0 Ht Hs Hmap0 Hr0 Hne Hc
                   | s0 r0 old0 m Ht Hs Hmap0 Hr0 He Hm ];
    unfold opened, promoted, closed, sent in *; cbn [heap activeSurfaces] in *.
  - left. congruence.
  - left. rewrite lookup_insert_ne in Hmap' by congruence.
    assert (r' = r) as -> by congruence.
    erewrite lookup_app_l_Some in Hr' by done. congruence.
  - assert (r' = r) as -> by congruence.
    apply list_lookup_insert_Some in Hr' as [(-> & <- & _) | [Hrr Hr']].
    2:{ left; congruence. }
    assert (old0 = old) as -> by congruence.
    right. exists w, event_. split_and!; try done.
    destruct Hwf as [Hlive _].
    destruct (Hlive _ _ Hmap) as (i1 & Hi1 & Hs1 & _).
    destruct (Hlive _ _ Hmap0) as (i2 & Hi2 & Hs2 & _).
    rewrite Hs. f_equal. congruence.
  - left. rewrite lookup_delete in Hmap'. case_decide; [done|].
    assert (r' = r) as -> by congruence.
    destruct Hwf as [Hlive _].
    destruct (Hlive _ _ Hmap) as (i1 & Hi1 & Hs1 & _).
    destruct (Hlive _ _ Hmap0) as (i2 & Hi2 & Hs2 & _).
    assert (r ≠ r0) by (intros ->; congruence).
    rewrite list_lookup_insert_ne in Hr' by done. congruence.
Qed.

(** ** Metadata bags *)

Lemma stamp_flowlet_lookup m key f bags :
  (stamp_flowlet m key (Some f) bags !!! m) !! key = Some (getFullName f).
Proof.
  unfold stamp_flowlet. by rewrite lookup_total_insert_eq, lookup_insert_eq.
Qed.

(** C8: on the mount path a captured flowlet's full name is in the
    record's metadata bag under [add_flowlet] when the mount event
    reaches the listeners; on the unmount path a captured flowlet's full
    name is under [remove_flowlet] in the same bag when the unmount event
    reaches them; the record, the mount event and the unmount event hold
    one address, so the entry written at the close is read through the
    mount event emitted earlier. *)
Theorem C8_flowlet_names_in_shared_metadata :
  (∀ w event_ s f st,
     trackable (event_element event_) →
     event_surface event_ = Some s →
     activeSurfaces st !! s = None →
     flowletManager_top w = Some f →
     ∃ st' info mev x,
       processNode' w event_ added st = Ok () st'
       ∧ open_record st' s = Some info
       ∧ addFlowlet info = Some f
       ∧ channel st' = channel st ++ [x]
       ∧ payload x = length (eventStore st)
       ∧ (seen_metadataStore x !!! metadata info) !! "add_flowlet"
         = Some (getFullName f)
       ∧ eventStore st' !! length (eventStore st) = Some mev
       ∧ event mev = mount_component
       ∧ metadata info = event_metadata event_
       ∧ metadata (spread mev) = metadata info
       ∧ (metadataStore st' !!! metadata info) !! "add_flowlet"
         = Some (getFullName f))
  ∧ (∀ w event_ s old f st,
       reachable cacheElementReactInfo st →
       event_surface event_ = Some s →
       open_record st s = Some old →
       element old = event_element event_ →
       flowletManager_top w = Some f →
       ∃ st' uev m mev x,
         processNode' w event_ removed st = Ok () st'
         ∧ channel st' = channel st ++ [x]
         ∧ payload x = length (eventStore st)
         ∧ (seen_metadataStore x !!! metadata old) !! "remove_flowlet"
           = Some (getFullName f)
         ∧ emitted st' = emitted st ++ [uev]
         ∧ event uev = unmount_component
         ∧ removeFlowlet (spread uev) = Some f
         ∧ mountEvent (spread uev) = Some m
         ∧ mev ∈ emitted st
         ∧ eventStore st' !! m = Some mev
         ∧ event mev = mount_component
         ∧ metadata (spread uev) = metadata old
         ∧ metadata (spread mev) = metadata old
         ∧ (metadataStore st' !!! metadata (spread uev)) !! "remove_flowlet"
           = Some (getFullName f)
         ∧ (metadataStore st' !!! metadata (spread mev)) !! "remove_flowlet"
           = Some (getFullName f)).
Proof.
  split.
  - intros w event_ s f st Ht Hs Hnone Hf.
    exists (opened cacheElementReactInfo w event_ s st),
      (with_mountEvent (Some (length (eventStore st)))
         (new_record cacheElementReactInfo w event_ s)),
      (mount_event (new_record cacheElementReactInfo w event_ s)
         (getNextEventIndex (eventIndexState st)).1).
    eexists. split; [by apply processNode_opened|].
    cbn. rewrite Hf. split_and!; try done.
    + apply open_record_Some. eexists. cbn. rewrite lookup_insert_eq.
      split; [done|]. by apply list_lookup_middle.
    + cbn. rewrite ?Hf. apply stamp_flowlet_lookup.
    + by apply list_lookup_middle.
    + apply stamp_flowlet_lookup.
  - intros w event_ s old f st Hreach Hs Hold He Hf.
    pose proof (reachable_wf _ Hreach) as Hwf.
    destruct (wf_close w _ _ _ _ Hwf Hs Hold He)
      as (r & m & mev & Hmap & Hr & Hm & Hmev & Hk & Hmd & Hrun).
    assert (Hwf' : wf (closed w s r old m st))
      by (eapply wf_path; [done|]; by apply processNode_path).
    exists (closed w s r old m st),
      (unmount_event (stamp_removal w old) m (performanceAbsoluteNow w)
         (getNextEventIndex (eventIndexState st)).1), m, mev.
    eexists. split; [exact Hrun|].
    rewrite !emitted_wf by done. cbn. rewrite Hf, Hmd.
    split_and!; try done.
    + cbn. rewrite ?Hf. apply stamp_flowlet_lookup.
    + by eapply list_elem_of_lookup_2.
    + by apply lookup_app_l_Some.
    + apply stamp_flowlet_lookup.
    + apply stamp_flowlet_lookup.
Qed.

(** ** Event indices *)

Lemma indices_snoc evs ev (bound : Z) :
  Forall (λ ev', eventIndex ev' < bound) evs →
  eventIndex ev = bound →
  StronglySorted Z.lt (eventIndex <$> evs) →
  StronglySorted Z.lt (eventIndex <$> (evs ++ [ev])).
Proof.
  intros Hall Hev Hsorted. rewrite fmap_app.
  apply StronglySorted_app_2; [|done|repeat constructor].
  intros i j (ev' & -> & Hin)%list_elem_of_fmap Hj.
  apply list_elem_of_singleton in Hj as ->. rewrite Hev.
  rewrite Forall_forall in Hall. by apply Hall.
Qed.

Lemma below_next_draw_advance evs g :
  increasing_generator →
  Forall (λ ev, eventIndex ev < (getNextEventIndex g).1) evs →
  Forall (λ ev, eventIndex ev < (getNextEventIndex (getNextEventIndex g).2).1) evs.
Proof.
  intros Hgen Hall. eapply Forall_impl; [exact Hall|].
  intros ev Hlt. specialize (Hgen g). cbn beta in *. lia.
Qed.

Lemma indices_step x st st' :
  increasing_generator →
  step cacheElementReactInfo x st = Ok () st' →
  below_next_draw st ∧ StronglySorted Z.lt (eventIndex <$> eventStore st) →
  below_next_draw st' ∧ StronglySorted Z.lt (eventIndex <$> eventStore st').
Proof.
  intros Hgen Hx [Hbelow Hsorted]. unfold below_next_draw in *.
  apply step_inv in Hx as [(w & event_ & action & -> & Hp) | [-> ->]].
  - destruct Hp as [ | s Ht Hs Hnone | s r old Ht Hs Hmap Hr Hne Hc
                     | s r old m Ht Hs Hmap Hr He Hm ]; try done; cbn.
    + split; [|by eapply indices_snoc].
      apply Forall_app. split; [by apply below_next_draw_advance|].
      apply Forall_singleton. apply Hgen.
    + split; [|by eapply indices_snoc].
      apply Forall_app. split; [by apply below_next_draw_advance|].
      apply Forall_singleton. apply Hgen.
  - cbn. split; [by apply below_next_draw_advance|done].
Qed.

(** C9: an emission draws once from the index generator, at that moment,
    and the event carries the number drawn; a call that emits nothing
    leaves the generator alone; so with a generator whose draws increase,
    the indices of the events emitted over a run increase strictly, other
    publishers' draws in between included. *)
Theorem C9_event_indices_increase :
  (∀ w event_ action st st',
     processNode' w event_ action st = Ok () st' →
     (channel st' = channel st ∧ eventStore st' = eventStore st
      ∧ eventIndexState st' = eventIndexState st)
     ∨ (∃ ev x,
          channel st' = channel st ++ [x]
          ∧ payload x = length (eventStore st)
          ∧ eventStore st' = eventStore st ++ [ev]
          ∧ eventIndex ev = (getNextEventIndex (eventIndexState st)).1
          ∧ eventIndexState st' = (getNextEventIndex (eventIndexState st)).2))
  ∧ (increasing_generator →
     ∀ bags g steps st,
       run cacheElementReactInfo steps (init bags g) = Ok () st →
       StronglySorted Z.lt (eventIndex <$> emitted st)).
Proof.
  split.
  - intros w event_ action st st' Hp%processNode_path.
    destruct Hp as [ | s Ht Hs Hnone | s r old Ht Hs Hmap Hr Hne Hc
                     | s r old m Ht Hs Hmap Hr He Hm ].
    + by left.
    + right. by eexists _, _.
    + by left.
    + right. by eexists _, _.
  - intros Hgen bags g steps st Hrun.
    rewrite emitted_wf by (apply reachable_wf; by exists bags, g, steps).
    refine (proj2 (run_invariant
      (λ st, below_next_draw st ∧ StronglySorted Z.lt (eventIndex <$> eventStore st))
      steps (init bags g) st _ _ Hrun)).
    + intros x st1 st2 Hinv Hx. by eapply indices_step.
    + split; by constructor.
Qed.

End Properties.

(** * Further properties of [processNode] and [publish] *)

Section Further.
Context `{Collaborators}.
Variable cacheElementReactInfo : bool.

(** ** Repeated and stale notifications *)

(** X1: a listener of [publish] that runs on a notification right after
    another one has handled it changes nothing, whatever the options of
    its own [publish] call, its clock reading and its flowlet stack, as
    long as the tree answers the containment test alike: on the shared
    [activeSurfaces] the first call leaves the node as the reference node
    of the surface, or the surface untracked. *)
Theorem X1_second_listener_is_noop c1 c2 name w1 w2 event_ st st1 :
  (∀ b, contains w2 (event_element event_) b = contains w1 (event_element event_) b) →
  publish c1 name w1 event_ st = Ok () st1 →
  publish c2 name w2 event_ st1 = Ok () st1.
Proof.
  intros Hdom Hrun.
  assert (∃ action, publish c1 name w1 event_ = processNode c1 w1 event_ action
                    ∧ publish c2 name w2 event_ = processNode c2 w2 event_ action)
    as (action & E1 & E2) by (destruct name; by eexists).
  rewrite E1 in Hrun. rewrite E2. clear E1 E2.
  apply processNode_path in Hrun. apply path_processNode, path_ignored.
  destruct Hrun as [action Hig | s Ht Hs Hnone | s r old Ht Hs Hmap Hr Hne Hc
                    | s r old m Ht Hs Hmap Hr He Hm ].
  - destruct Hig as [a Hn | a Hs | s Hs Hmap | s old Hs Hold Hne
                     | s old Hs Hold He | s old Hs Hold Hc].
    + by apply ignorable_untrackable.
    + by apply ignorable_no_surface.
    + by eapply ignorable_removed_untracked.
    + by eapply ignorable_removed_other_node.
    + by eapply ignorable_added_same_node.
    + eapply ignorable_added_unrelated; [done..|]. by rewrite Hdom.
  - apply (ignorable_added_same_node _ _ _ s
             (with_mountEvent (Some (length (eventStore st)))
                (new_record c1 w1 event_ s))); [done| |reflexivity].
    apply open_record_Some. eexists. cbn. rewrite lookup_insert_eq.
    split; [done|]. by apply list_lookup_middle.
  - apply (ignorable_added_same_node _ _ _ s (promote w1 event_ old));
      [done| |reflexivity].
    apply open_record_Some. exists r. cbn. split; [done|].
    apply list_lookup_insert_eq. by eapply lookup_lt_Some.
  - eapply (ignorable_removed_untracked _ _ _ s); [done|].
    cbn. by rewrite lookup_delete_eq.
Qed.

(** X2: from any state, the first open of an untracked surface followed
    by the removal of the same node puts [activeSurfaces] back as it was
    and adds two objects to the event store, a mount event and an unmount
    event that embeds it and reports the time between the two clock
    readings. *)
Theorem X2_open_then_close w1 w2 event_ s st :
  trackable (event_element event_) →
  event_surface event_ = Some s →
  activeSurfaces st !! s = None →
  ∃ st1 st2 mev uev,
    processNode cacheElementReactInfo w1 event_ added st = Ok () st1
    ∧ processNode cacheElementReactInfo w2 event_ removed st1 = Ok () st2
    ∧ activeSurfaces st2 = activeSurfaces st
    ∧ eventStore st2 = eventStore st ++ [mev; uev]
    ∧ payload <$> channel st2
      = (payload <$> channel st) ++ [length (eventStore st); S (length (eventStore st))]
    ∧ event mev = mount_component
    ∧ event uev = unmount_component
    ∧ mountEvent (spread uev) = Some (length (eventStore st))
    ∧ eventTimestamp mev = performanceAbsoluteNow w1
    ∧ eventTimestamp uev = performanceAbsoluteNow w2
    ∧ mountedDuration uev
      = Some ((performanceAbsoluteNow w2 - performanceAbsoluteNow w1) / 1000)%Q.
Proof.
  intros Ht Hs Hnone.
  pose proof (processNode_opened cacheElementReactInfo w1 _ _ _ Ht Hs Hnone) as Hopen.
  eexists _, _, _, _. split; [exact Hopen|]. split.
  - eapply (processNode_closed cacheElementReactInfo w2 event_ s (length (heap st)));
      try done.
    + cbn. by rewrite lookup_insert_eq.
    + cbn. by apply list_lookup_middle.
    + reflexivity.
    + reflexivity.
  - cbn. rewrite delete_insert_id by done.
    rewrite !fmap_app, <- !app_assoc, length_app, Nat.add_1_r. cbn.
    by split_and!.
Qed.

(** X3: once a surface has been promoted to an ancestor, the removal of
    the node it was tracked by before is dropped: the record stays open
    under the ancestor and nothing is emitted. *)
Theorem X3_removal_of_superseded_node_is_dropped w1 w2 event_ later s old st :
  trackable (event_element event_) →
  event_surface event_ = Some s →
  open_record st s = Some old →
  event_element event_ ≠ element old →
  contains w1 (event_element event_) (element old) = true →
  event_surface later = Some s →
  event_element later = element old →
  ∃ st1 new,
    processNode cacheElementReactInfo w1 event_ added st = Ok () st1
    ∧ processNode cacheElementReactInfo w2 later removed st1 = Ok () st1
    ∧ open_record st1 s = Some new
    ∧ element new = event_element event_.
Proof.
  intros Ht Hs (r & Hmap & Hr)%open_record_Some Hne Hc Hs' He'.
  exists (promoted w1 event_ r old st), (promote w1 event_ old).
  assert (Hnew : open_record (promoted w1 event_ r old st) s
                 = Some (promote w1 event_ old)).
  { apply open_record_Some. exists r. cbn. split; [done|].
    apply list_lookup_insert_eq. by eapply lookup_lt_Some. }
  split; [by eapply processNode_promoted|]. split; [|done].
  apply path_processNode, path_ignored.
  eapply ignorable_removed_other_node; [done..|]. cbn. congruence.
Qed.

(** ** What a call may touch *)

(** X5: a mount notification never untracks or re-files a surface, and an
    unmount notification never tracks one: the map grows along 'added' and
    shrinks along 'removed', by the surface of the notification at most. *)
Theorem X5_map_grows_on_added_shrinks_on_removed w event_ action st st' :
  processNode cacheElementReactInfo w event_ action st = Ok () st' →
  match action with
  | added =>
      activeSurfaces st ⊆ activeSurfaces st'
      ∧ ∀ s, event_surface event_ ≠ Some s →
             activeSurfaces st' !! s = activeSurfaces st !! s
  | removed =>
      activeSurfaces st' ⊆ activeSurfaces st
      ∧ ∀ s, event_surface event_ ≠ Some s →
             activeSurfaces st' !! s = activeSurfaces st !! s
  end.
Proof.
  intros Hp%processNode_path.
  destruct Hp as [action Hig | s Ht Hs Hnone | s r old Ht Hs Hmap Hr Hne Hc
                  | s r old m Ht Hs Hmap Hr He Hm ]; cbn.
  - by destruct action.
  - split; [by apply insert_subseteq|].
    intros s' Hs'. apply lookup_insert_ne. congruence.
  - done.
  - split; [apply delete_subseteq|].
    intros s' Hs'. apply lookup_delete_ne. congruence.
Qed.

(** X10: the only entries [processNode] writes into a metadata bag are
    [add_flowlet], on the first open and into the notification's bag, and
    [remove_flowlet], on the matching close and into the record's bag, each
    the full name of the flowlet on top of the stack; with no flowlet on
    top, and for every other bag and key, the bags are left as they
    were. *)
Theorem X10_metadata_writes w event_ action st st' m k :
  processNode cacheElementReactInfo w event_ action st = Ok () st' →
  (metadataStore st' !!! m) !! k = (metadataStore st !!! m) !! k
  ∨ ∃ f s,
      flowletManager_top w = Some f
      ∧ event_surface event_ = Some s
      ∧ (metadataStore st' !!! m) !! k = Some (getFullName f)
      ∧ ((action = added ∧ k = "add_flowlet" ∧ m = event_metadata event_
          ∧ activeSurfaces st !! s = None)
         ∨ (action = removed ∧ k = "remove_flowlet"
            ∧ ∃ old, open_record st s = Some old ∧ m = metadata old
                     ∧ element old = event_element event_)).
Proof.
  intros Hp%processNode_path.
  assert (Hstamp : ∀ m0 k0 bags,
    (stamp_flowlet m0 k0 (flowletManager_top w) bags !!! m) !! k
      = (bags !!! m) !! k
    ∨ ∃ f, flowletManager_top w = Some f ∧ m = m0 ∧ k = k0
           ∧ (stamp_flowlet m0 k0 (flowletManager_top w) bags !!! m) !! k
             = Some (getFullName f)).
  { intros m0 k0 bags. unfold stamp_flowlet.
    destruct (flowletManager_top w) as [f|]; [|by left].
    destruct (decide (m = m0)) as [->|Hm];
      [|left; by rewrite lookup_total_insert_ne].
    rewrite lookup_total_insert_eq.
    destruct (decide (k = k0)) as [->|Hk];
      [|left; by rewrite lookup_insert_ne].
    right. exists f. by rewrite lookup_insert_eq. }
  destruct Hp as [action Hig | s Ht Hs Hnone | s r old Ht Hs Hmap Hr Hne Hc
                  | s r old m0 Ht Hs Hmap Hr He Hm ]; cbn.
  - by left.
  - destruct (Hstamp (event_metadata event_) "add_flowlet" (metadataStore st))
      as [Heq | (f & Hf & -> & -> & Hv)]; [by left|].
    right. exists f, s. split_and!; try done. by left.
  - by left.
  - destruct (Hstamp (metadata old) "remove_flowlet" (metadataStore st))
      as [Heq | (f & Hf & -> & -> & Hv)]; [by left|].
    right. exists f, s. split_and!; try done. right. split_and!; try done.
    exists old. split_and!; try done. apply open_record_Some. eauto.
Qed.

(** ** The assertion and the guard *)

(** X9: [processNode] ends on the failed assertion exactly when it is
    handed a removal, by a trackable node, of a surface whose record has
    that node as reference node and holds no mount event; the removal time
    the assertion also tests was written just before and cannot be
    missing. *)
Theorem X9_assertion_fails_exactly_without_mount_event w event_ action st msg :
  processNode cacheElementReactInfo w event_ action st = AssertionFailed msg
  ↔ msg = "Missing mutaion info for unmounting"
    ∧ action = removed
    ∧ trackable (event_element event_)
    ∧ ∃ s old,
        event_surface event_ = Some s
        ∧ open_record st s = Some old
        ∧ element old = event_element event_
        ∧ mountEvent old = None.
Proof.
  split.
  - intros Hrun.
    destruct (processNode_outcome cacheElementReactInfo w event_ action st)
      as [[st' Hp] | [(s & r & old & -> & Ht & Hs & Hmap & Hr & He & Hm)
                     | (s & r & Ht & Hs & Hmap & Hr)]].
    + apply path_processNode in Hp. congruence.
    + erewrite processNode_assert in Hrun by done. injection Hrun as <-.
      split_and!; try done. exists s, old. split_and!; try done.
      apply open_record_Some. eauto.
    + erewrite processNode_invalid in Hrun by done. discriminate.
  - intros (-> & -> & Ht & s & old & Hs & (r & Hmap & Hr)%open_record_Some & He & Hm).
    by eapply processNode_assert.
Qed.


(** ** Records of other surfaces *)

(** The record of each surface after a call, from a state satisfying the
    invariant. *)
Lemma path_open_record w event_ action st st' s0 :
  wf st →
  path cacheElementReactInfo w event_ st action st' →
  open_record st' s0 = open_record st s0
  ∨ (event_surface event_ = Some s0
     ∧ ((action = added ∧ activeSurfaces st !! s0 = None
         ∧ open_record st' s0
           = Some (with_mountEvent (Some (length (eventStore st)))
                     (new_record cacheElementReactInfo w event_ s0)))
        ∨ (action = added
           ∧ ∃ old, open_record st s0 = Some old
                    ∧ open_record st' s0 = Some (promote w event_ old))
        ∨ (action = removed
           ∧ ∃ old m, open_record st s0 = Some old
                      ∧ element old = event_element event_
                      ∧ mountEvent old = Some m
                      ∧ open_record st' s0 = None))).
Proof.
  intros [Hlive _] Hp.
  assert (Hother : ∀ s1 r0 (x : SurfaceInfo),
            activeSurfaces st !! s0 = Some r0 → activeSurfaces st !! s1 = Some r0 →
            s1 = s0).
  { intros s1 r0 _ H0 H1.
    destruct (Hlive _ _ H0) as (i0 & Hi0 & <- & _).
    destruct (Hlive _ _ H1) as (i1 & Hi1 & <- & _). congruence. }
  destruct Hp as [action Hig | s Ht Hs Hnone | s r old Ht Hs Hmap Hr Hne Hc
                  | s r old m Ht Hs Hmap Hr He Hm ].
  - by left.
  - destruct (decide (s0 = s)) as [->|Hss].
    + right. split; [done|]. left. split_and!; try done.
      apply open_record_Some. eexists. cbn. rewrite lookup_insert_eq.
      split; [done|]. by apply list_lookup_middle.
    + left. unfold open_record. cbn. rewrite lookup_insert_ne by done.
      destruct (activeSurfaces st !! s0) as [r0|] eqn:Hr0; [|done]. cbn.
      destruct (Hlive _ _ Hr0) as (i0 & Hi0 & _).
      rewrite Hi0. by apply lookup_app_l_Some.
  - destruct (decide (s0 = s)) as [->|Hss].
    + right. split; [done|]. right. left. split; [done|]. exists old.
      split; apply open_record_Some; exists r; cbn; split; try done.
      apply list_lookup_insert_eq. by eapply lookup_lt_Some.
    + left. unfold open_record. cbn.
      destruct (activeSurfaces st !! s0) as [r0|] eqn:Hr0; [|done]. cbn.
      apply list_lookup_insert_ne. intros ->. apply Hss.
      symmetry. by eapply (Hother s r0 old).
  - destruct (decide (s0 = s)) as [->|Hss].
    + right. split; [done|]. right. right. split; [done|]. exists old, m.
      split_and!; try done; [apply open_record_Some; eauto|].
      unfold open_record. cbn. by rewrite lookup_delete_eq.
    + left. unfold open_record. cbn. rewrite lookup_delete_ne by done.
      destruct (activeSurfaces st !! s0) as [r0|] eqn:Hr0; [|done]. cbn.
      apply list_lookup_insert_ne. intros ->. apply Hss.
      symmetry. by eapply (Hother s r0 old).
Qed.

(** X4: a notification leaves the record of every surface other than its
    own as it was. *)
Theorem X4_other_surfaces_untouched w event_ action st st' s0 :
  reachable cacheElementReactInfo st →
  processNode cacheElementReactInfo w event_ action st = Ok () st' →
  event_surface event_ ≠ Some s0 →
  open_record st' s0 = open_record st s0.
Proof.
  intros Hwf%reachable_wf Hp%processNode_path Hs0.
  by destruct (path_open_record w event_ action st st' s0 Hwf Hp) as [Heq | [Hs _]].
Qed.

(** ** What a run never takes back *)

Lemma step_stores_grow x st st' :
  step cacheElementReactInfo x st = Ok () st' →
  eventStore st `prefix_of` eventStore st' ∧ channel st `prefix_of` channel st'.
Proof.
  intros [(w & event_ & action & -> & Hp) | [-> ->]]%step_inv; [|done].
  destruct Hp as [action Hig | s Ht Hs Hnone | s r old Ht Hs Hmap Hr Hne Hc
                  | s r old m Ht Hs Hmap Hr He Hm ]; cbn;
    try done; split; by apply prefix_app_r.
Qed.

(** X6: over any run the tracker only appends to the event store and to
    the channel: an object once emitted stays at its address as it was
    built, and the order of emissions stands. *)
Theorem X6_emissions_are_never_retracted steps st st' :
  run cacheElementReactInfo steps st = Ok () st' →
  eventStore st `prefix_of` eventStore st'
  ∧ channel st `prefix_of` channel st'
  ∧ ∀ e ev, eventStore st !! e = Some ev → eventStore st' !! e = Some ev.
Proof.
  intros Hrun.
  assert (Hgrow : eventStore st `prefix_of` eventStore st'
                  ∧ channel st `prefix_of` channel st').
  { refine (run_invariant cacheElementReactInfo
              (λ st1, eventStore st `prefix_of` eventStore st1
                      ∧ channel st `prefix_of` channel st1)
              steps st st' _ _ Hrun); [|done].
    intros x st1 st2 [He Hc] [He' Hc']%step_stores_grow.
    split; by etrans. }
  destruct Hgrow as [He Hc]. split_and!; try done.
  intros e ev Hev. by eapply prefix_lookup_Some.
Qed.

Lemma same_fixed_fields_trans i1 i2 i3 :
  same_fixed_fields i1 i2 → same_fixed_fields i2 i3 → same_fixed_fields i1 i3.
Proof.
  unfold same_fixed_fields.
  intros (?&?&?&?&?&?&?) (?&?&?&?&?&?&?). split_and!; congruence.
Qed.

Lemma step_fixed_fields x st st' r i :
  step cacheElementReactInfo x st = Ok () st' →
  heap st !! r = Some i →
  ∃ i', heap st' !! r = Some i' ∧ same_fixed_fields i i'.
Proof.
  intros [(w & event_ & action & -> & Hp) | [-> ->]]%step_inv Hi;
    [|by exists i].
  destruct Hp as [action Hig | s Ht Hs Hnone | s r0 old Ht Hs Hmap Hr Hne Hc
                  | s r0 old m Ht Hs Hmap Hr He Hm ]; cbn.
  - by exists i.
  - exists i. split; [by apply lookup_app_l_Some|done].
  - destruct (decide (r0 = r)) as [->|Hrr].
    + exists (promote w event_ old). assert (old = i) as -> by congruence.
      split; [|done]. apply list_lookup_insert_eq. by eapply lookup_lt_Some.
    + exists i. by rewrite list_lookup_insert_ne.
  - destruct (decide (r0 = r)) as [->|Hrr].
    + exists (stamp_removal w old). assert (old = i) as -> by congruence.
      split; [|done]. apply list_lookup_insert_eq. by eapply lookup_lt_Some.
    + exists i. by rewrite list_lookup_insert_ne.
Qed.

(** X7: over any run a record stays at its address and keeps the surface
    id, the notification's flowlet, the metadata bag, the component name
    and stack, the element text and the mount event it has; a call only
    ever writes its reference node, add time and flowlet, and removal time
    and flowlet. *)
Theorem X7_records_keep_their_fixed_fields steps st st' r i :
  run cacheElementReactInfo steps st = Ok () st' →
  heap st !! r = Some i →
  ∃ i', heap st' !! r = Some i' ∧ same_fixed_fields i i'.
Proof.
  intros Hrun Hi.
  refine (run_invariant cacheElementReactInfo
            (λ st1, ∃ i', heap st1 !! r = Some i' ∧ same_fixed_fields i i')
            steps st st' _ _ Hrun); [|by exists i].
  intros x st1 st2 (i1 & Hi1 & Hsame) Hx.
  destruct (step_fixed_fields x st1 st2 r i1 Hx Hi1) as (i2 & Hi2 & Hsame').
  exists i2. split; [done|]. by eapply same_fixed_fields_trans.
Qed.

(** ** Mounts and unmounts *)

Lemma count_events_snoc k evs ev :
  count_events k (evs ++ [ev])
  = (count_events k evs + (if decide (event ev = k) then 1 else 0))%nat.
Proof.
  unfold count_events. rewrite filter_app, length_app. f_equal.
  rewrite filter_cons, filter_nil. by destruct (decide (event ev = k)).
Qed.

Lemma count_path w event_ action st st' :
  path cacheElementReactInfo w event_ st action st' →
  count_events mount_component (eventStore st)
    = (count_events unmount_component (eventStore st) + size (activeSurfaces st))%nat →
  count_events mount_component (eventStore st')
    = (count_events unmount_component (eventStore st') + size (activeSurfaces st'))%nat.
Proof.
  intros Hp Hcount.
  destruct Hp as [action Hig | s Ht Hs Hnone | s r old Ht Hs Hmap Hr Hne Hc
                  | s r old m Ht Hs Hmap Hr He Hm ];
    unfold opened, promoted, closed, sent; cbn [eventStore activeSurfaces];
    try done.
  - rewrite !count_events_snoc, map_size_insert_None by done.
    cbn [event mount_event]. rewrite decide_True, decide_False by done. lia.
  - rewrite !count_events_snoc, map_size_delete_Some by done.
    cbn [event unmount_event]. rewrite decide_False, decide_True by done.
    assert (size (activeSurfaces st) ≠ 0%nat).
    { intros Hz%map_size_empty_inv. rewrite Hz in Hmap. by rewrite lookup_empty in Hmap. }
    lia.
Qed.

(** X8: in every reachable state the mount events emitted so far are as
    many as the unmount events plus the surfaces still tracked: each
    surface that was mounted is either open or was unmounted once. *)
Theorem X8_mounts_are_unmounts_plus_open st :
  reachable cacheElementReactInfo st →
  count_events mount_component (emitted st)
  = (count_events unmount_component (emitted st) + size (activeSurfaces st))%nat.
Proof.
  intros Hreach. rewrite emitted_wf by (by eapply reachable_wf).
  destruct Hreach as (bags & g & steps & Hrun).
  refine (run_invariant cacheElementReactInfo
            (λ st, count_events mount_component (eventStore st)
                   = (count_events unmount_component (eventStore st)
                      + size (activeSurfaces st))%nat)
            steps (init bags g) st _ _ Hrun); [|done].
  intros x st1 st2 Hcount [(w & event_ & action & -> & Hp) | [-> ->]]%step_inv.
  - by eapply count_path.
  - done.
Qed.

Lemma embeds_snoc st st' ev e m :
  eventStore st' = eventStore st ++ [ev] →
  embeds st' e m ↔
  embeds st e m
  ∨ (e = length (eventStore st) ∧ event ev = unmount_component
     ∧ mountEvent (spread ev) = Some m).
Proof.
  intros Hst. unfold embeds. rewrite Hst. split.
  - intros (uev & [[_ Hl] | [-> <-]]%lookup_snoc_Some & Hk & Hm);
      [left; eauto | by right].
  - intros [(uev & Hl & Hk & Hm) | (-> & Hk & Hm)].
    + exists uev. split; [by apply lookup_app_l_Some|done].
    + exists ev. split; [by apply list_lookup_middle|done].
Qed.

Lemma mount_of_snoc st st' ev m s b :
  eventStore st' = eventStore st ++ [ev] →
  mount_of st m s b → mount_of st' m s b.
Proof.
  intros Hst (mev & Hl & ?). exists mev. rewrite Hst.
  split; [by apply lookup_app_l_Some|done].
Qed.

Lemma mount_of_lt st m s b : mount_of st m s b → (m < length (eventStore st))%nat.
Proof. intros (mev & Hl & _). by eapply lookup_lt_Some. Qed.

Lemma pairing_path w event_ action st st' :
  wf st → pairing st →
  path cacheElementReactInfo w event_ st action st' →
  pairing st'.
Proof.
  intros Hwf (Hearlier & Hinj & Hopen) Hp.
  pose proof (path_open_record w event_ action st st') as Hrec.
  destruct Hp as [action Hig | s Ht Hs Hnone | s r old Ht Hs Hmap Hr Hne Hc
                  | s r old m0 Ht Hs Hmap Hr He Hm ].
  - done.
  - (* first open: one more mount event *)
    set (st' := opened cacheElementReactInfo w event_ s st) in *.
    assert (Hst : eventStore st'
                  = eventStore st
                    ++ [mount_event (new_record cacheElementReactInfo w event_ s)
                          (getNextEventIndex (eventIndexState st)).1]) by done.
    assert (Hemb : ∀ e m, embeds st' e m → embeds st e m).
    { intros e m [Hold | (_ & Hk & _)]%(embeds_snoc st st' _ e m Hst); done. }
    split_and!.
    + intros e m uev [[_ Hl] | [_ <-]]%lookup_snoc_Some Hk Hm; [|done].
      destruct (Hearlier e m uev Hl Hk Hm) as [Hlt Hmo].
      split; [done|]. by eapply mount_of_snoc.
    + intros e1 e2 m H1%Hemb H2%Hemb. by eapply Hinj.
    + intros s0 info m Hinfo Hm.
      destruct (Hrec s0 Hwf ltac:(by apply path_opened))
        as [Heq | (Hs0 & [(_ & _ & Hnew) | [(_ & old & Hold & _)
                          | (Hrem & _)]])]; [| | |done].
      * rewrite Heq in Hinfo. destruct (Hopen s0 info m Hinfo Hm) as [Hmo Hno].
        split; [by eapply mount_of_snoc|]. intros e He%Hemb. by eapply Hno.
      * assert (s0 = s) as -> by congruence.
        rewrite Hnew in Hinfo. injection Hinfo as <-. injection Hm as <-.
        split.
        -- eexists. split; [rewrite Hst; by apply list_lookup_middle|done].
        -- intros e (uev & Hl & Hk & Hm)%Hemb.
           destruct (Hearlier e _ uev Hl Hk Hm) as [Hlt _].
           apply lookup_lt_Some in Hl. lia.
      * apply open_record_Some in Hold as (r0 & Hr0 & _).
        assert (s0 = s) as -> by congruence. congruence.
  - (* promotion: the store is as it was *)
    split_and!; [done..|].
    intros s0 info m Hinfo Hm.
    destruct (Hrec s0 Hwf ltac:(by eapply path_promoted))
      as [Heq | (Hs0 & [(_ & Hnone & _) | [(_ & old0 & Hold & Hnew)
                        | (Hrem & _)]])]; [| | |done].
    + rewrite Heq in Hinfo. by apply Hopen.
    + assert (s0 = s) as -> by congruence. congruence.
    + rewrite Hnew in Hinfo. injection Hinfo as <-. by apply (Hopen s0 old0 m).
  - (* matching close: one more unmount event, embedding the record's mount *)
    set (st' := closed w s r old m0 st) in *.
    assert (Hst : eventStore st'
                  = eventStore st
                    ++ [unmount_event (stamp_removal w old) m0 (performanceAbsoluteNow w)
                          (getNextEventIndex (eventIndexState st)).1]) by done.
    assert (Hold : open_record st s = Some old) by (apply open_record_Some; eauto).
    destruct (Hopen s old m0 Hold Hm) as [Hmo0 Hno0].
    assert (Hsurf : surface old = s).
    { destruct Hwf as [Hlive _]. destruct (Hlive _ _ Hmap) as (i & Hi & <- & _).
      congruence. }
    assert (Hemb : ∀ e m, embeds st' e m →
              embeds st e m ∨ (e = length (eventStore st) ∧ m = m0)).
    { intros e m [Hold' | (-> & _ & Hm')]%(embeds_snoc st st' _ e m Hst);
        [by left|right]. split; [done|]. cbn in Hm'. congruence. }
    split_and!.
    + intros e m uev [[_ Hl] | [-> <-]]%lookup_snoc_Some Hk Hm'.
      * destruct (Hearlier e m uev Hl Hk Hm') as [Hlt Hmo].
        split; [done|]. by eapply mount_of_snoc.
      * cbn in Hm'. injection Hm' as <-. cbn.
        split; [by eapply mount_of_lt|].
        rewrite Hsurf. by eapply mount_of_snoc.
    + intros e1 e2 m [H1 | [-> ->]]%Hemb [H2 | [-> Hm2]]%Hemb.
      * by eapply Hinj.
      * subst m. by destruct (Hno0 e1).
      * by destruct (Hno0 e2).
      * done.
    + intros s0 info m Hinfo Hm'.
      destruct (Hrec s0 Hwf ltac:(by eapply path_closed))
        as [Heq | (Hs0 & [(Hadd & _) | [(Hadd & _)
                          | (_ & old0 & m1 & _ & _ & _ & Hnone)]])];
        [|done|done|congruence].
      rewrite Heq in Hinfo. destruct (Hopen s0 info m Hinfo Hm') as [Hmo Hno].
      split; [by eapply mount_of_snoc|].
      intros e [He' | [-> ->]]%Hemb; [by eapply Hno|].
      destruct Hmo as (mev & Hl & _ & Hs1 & _).
      destruct Hmo0 as (mev0 & Hl0 & _ & Hs2 & _).
      assert (s0 = s) as -> by congruence.
      assert (Hgone : open_record st' s = None)
        by (unfold open_record; cbn; by rewrite lookup_delete_eq).
      congruence.
Qed.

Lemma pairing_reachable st : reachable cacheElementReactInfo st → pairing st.
Proof.
  intros (bags & g & steps & Hrun).
  refine (proj2 (run_invariant cacheElementReactInfo (λ st, wf st ∧ pairing st)
                   steps (init bags g) st _ _ Hrun)).
  - intros x st1 st2 [Hwf Hpair] Hx. split; [by eapply wf_step|].
    apply step_inv in Hx as [(w & event_ & action & -> & Hp) | [-> ->]];
      [by eapply pairing_path | done].
  - split; [apply wf_init|]. split_and!.
    + intros e m uev Hl. cbn in Hl. by rewrite lookup_nil in Hl.
    + intros e1 e2 m (uev & Hl & _). cbn in Hl. by rewrite lookup_nil in Hl.
    + intros s info m (r & Hmap & _)%open_record_Some.
      cbn in Hmap. by rewrite lookup_empty in Hmap.
Qed.

(** X11: in every reachable state each unmount event embeds a mount event
    that was emitted before it, for the same surface and with the same
    metadata bag, and no mount event is embedded by two unmount events. *)
Theorem X11_unmounts_pair_with_earlier_mounts st :
  reachable cacheElementReactInfo st →
  (∀ e uev, eventStore st !! e = Some uev → event uev = unmount_component →
     ∃ m mev,
       mountEvent (spread uev) = Some m
       ∧ (m < e)%nat
       ∧ eventStore st !! m = Some mev
       ∧ event mev = mount_component
       ∧ surface (spread mev) = surface (spread uev)
       ∧ metadata (spread mev) = metadata (spread uev))
  ∧ (∀ e1 e2 m, embeds st e1 m → embeds st e2 m → e1 = e2).
Proof.
  intros Hreach.
  destruct (pairing_reachable st Hreach) as (Hearlier & Hinj & _).
  split; [|done].
  intros e uev Hl Hk.
  pose proof (unmount_shape_reachable cacheElementReactInfo st Hreach) as Hshape.
  rewrite Forall_forall in Hshape.
  destruct (Hshape uev (list_elem_of_lookup_2 _ _ _ Hl) Hk) as ([m Hm] & _).
  destruct (Hearlier e m uev Hl Hk Hm) as (Hlt & mev & Hmev & Hkm & Hs & Hb).
  by exists m, mev.
Qed.

(** ** What every emitted event carries *)

Lemma event_shape_path w event_ action st st' :
  Forall event_shape (eventStore st) →
  path cacheElementReactInfo w event_ st action st' →
  Forall event_shape (eventStore st').
Proof.
  intros Hall Hp.
  destruct Hp as [action Hig | s Ht Hs Hnone | s r old Ht Hs Hmap Hr Hne Hc
                  | s r old m Ht Hs Hmap Hr He Hm ]; try done; cbn.
  - apply Forall_app. split; [done|]. apply Forall_singleton.
    split; [done|]. split; [done|]. intros _. by split_and!.
  - apply Forall_app. split; [done|]. apply Forall_singleton.
    split; [cbn; by rewrite He|]. split; [done|]. intros Hk. discriminate Hk.
Qed.

(** X12: in every reachable state each emitted event is for an
    HTMLElement whose name the guard let through and carries the logging
    id of that very node; a mount event is stamped with its [addTime] and
    carries no duration, no mount event, no removal time and no removal
    flowlet. *)
Theorem X12_emitted_event_shape st :
  reachable cacheElementReactInfo st →
  Forall event_shape (emitted st).
Proof.
  intros Hreach. rewrite emitted_wf by (by eapply reachable_wf).
  destruct Hreach as (bags & g & steps & Hrun).
  refine (run_invariant cacheElementReactInfo
            (λ st, Forall event_shape (eventStore st))
            steps (init bags g) st _ _ Hrun); [|by constructor].
  intros x st1 st2 Hall [(w & event_ & action & -> & Hp) | [-> ->]]%step_inv.
  - by eapply event_shape_path.
  - done.
Qed.

(** ** Timestamps along the channel *)

Lemma timestamps_snoc evs ev (t : Q) :
  Forall (λ ev', (eventTimestamp ev' <= t)%Q) evs →
  eventTimestamp ev = t →
  StronglySorted Qle (eventTimestamp <$> evs) →
  StronglySorted Qle (eventTimestamp <$> (evs ++ [ev])).
Proof.
  intros Hall Hev Hsorted. rewrite fmap_app.
  apply StronglySorted_app_2; [|done|repeat constructor].
  intros i j (ev' & -> & Hin)%list_elem_of_fmap Hj.
  apply list_elem_of_singleton in Hj as ->. rewrite Hev.
  rewrite Forall_forall in Hall. by apply Hall.
Qed.

Lemma stamps_path w event_ action steps st st' :
  stamped_before (Notify w event_ action :: steps) st →
  Forall (Qle (performanceAbsoluteNow w)) (timestamps steps) →
  StronglySorted Qle (eventTimestamp <$> eventStore st) →
  path cacheElementReactInfo w event_ st action st' →
  stamped_before steps st'
  ∧ StronglySorted Qle (eventTimestamp <$> eventStore st').
Proof.
  unfold stamped_before. intros Hbefore Hnow Hsorted Hp.
  assert (Hnowle : Forall (λ ev, (eventTimestamp ev <= performanceAbsoluteNow w)%Q)
                     (eventStore st)).
  { eapply Forall_impl; [exact Hbefore|]. intros ev Hev. cbn in Hev.
    by apply Forall_cons in Hev as [? _]. }
  assert (Hrest : Forall (λ ev, Forall (Qle (eventTimestamp ev)) (timestamps steps))
                    (eventStore st)).
  { eapply Forall_impl; [exact Hbefore|]. intros ev Hev. cbn in Hev.
    by apply Forall_cons in Hev as [_ ?]. }
  destruct Hp as [action Hig | s Ht Hs Hnone | s r old Ht Hs Hmap Hr Hne Hc
                  | s r old m Ht Hs Hmap Hr He Hm ]; try done; cbn.
  - split; [|by eapply timestamps_snoc].
    apply Forall_app. split; [done|]. by apply Forall_singleton.
  - split; [|by eapply timestamps_snoc].
    apply Forall_app. split; [done|]. by apply Forall_singleton.
Qed.

Lemma stamps_run steps st st' :
  stamped_before steps st →
  monotonic_clock steps →
  StronglySorted Qle (eventTimestamp <$> eventStore st) →
  run cacheElementReactInfo steps st = Ok () st' →
  StronglySorted Qle (eventTimestamp <$> eventStore st').
Proof.
  revert st. induction steps as [|x steps IH]; intros st Hbefore Hmono Hsorted.
  - cbn. unfold mret, M_ret. by intros [= <-].
  - intros (st1 & Hx & Hrest)%run_cons_inv.
    apply step_inv in Hx as [(w & event_ & action & -> & Hp) | [-> ->]].
    + unfold monotonic_clock in Hmono. cbn in Hmono.
      apply StronglySorted_cons in Hmono as [Hnow Hmono].
      destruct (stamps_path _ _ _ _ _ _ Hbefore Hnow Hsorted Hp) as [Hb1 Hs1].
      by apply (IH st1).
    + by apply (IH (drawn st)).
Qed.

(** X13: over a run on which the clock never goes back, the events reach
    the channel in the order of their [eventTimestamp]. *)
Theorem X13_event_timestamps_in_channel_order bags g steps st :
  run cacheElementReactInfo steps (init bags g) = Ok () st →
  monotonic_clock steps →
  StronglySorted Qle (eventTimestamp <$> emitted st).
Proof.
  intros Hrun Hmono.
  rewrite emitted_wf
    by (apply (reachable_wf cacheElementReactInfo); by exists bags, g, steps).
  eapply (stamps_run steps (init bags g)); try done; by constructor.
Qed.

(** ** A surface from mount to unmount *)

(** X15: a surface opened under one node, promoted to an ancestor and
    closed by that ancestor gives one mount and one unmount event.  The
    mount event keeps the first node and the first clock reading; the
    unmount event carries the ancestor, and the add time and add flowlet
    of the promotion, from which its duration counts.  The bag stays the
    one of the first notification, the promoting notification's own bag
    and flowlet being dropped, and its [add_flowlet] entry stays the name
    captured at the first open. *)
Theorem X15_mount_promote_unmount w1 w2 w3 first second last s f1 st :
  trackable (event_element first) →
  trackable (event_element second) →
  event_surface first = Some s →
  event_surface second = Some s →
  event_surface last = Some s →
  activeSurfaces st !! s = None →
  event_element second ≠ event_element first →
  contains w2 (event_element second) (event_element first) = true →
  event_element last = event_element second →
  flowletManager_top w1 = Some f1 →
  ∃ st3 mev uev,
    run cacheElementReactInfo
      [Notify w1 first added; Notify w2 second added; Notify w3 last removed] st
    = Ok () st3
    ∧ activeSurfaces st3 = activeSurfaces st
    ∧ eventStore st3 = eventStore st ++ [mev; uev]
    ∧ event mev = mount_component
    ∧ element (spread mev) = event_element first
    ∧ eventTimestamp mev = performanceAbsoluteNow w1
    ∧ event uev = unmount_component
    ∧ mountEvent (spread uev) = Some (length (eventStore st))
    ∧ element (spread uev) = event_element second
    ∧ addTime (spread uev) = performanceAbsoluteNow w2
    ∧ addFlowlet (spread uev) = flowletManager_top w2
    ∧ mountedDuration uev
      = Some ((performanceAbsoluteNow w3 - performanceAbsoluteNow w2) / 1000)%Q
    ∧ flowlet (spread uev) = event_flowlet first
    ∧ metadata (spread uev) = event_metadata first
    ∧ metadata (spread mev) = event_metadata first
    ∧ (metadataStore st3 !!! event_metadata first) !! "add_flowlet"
      = Some (getFullName f1).
Proof.
  intros Ht1 Ht2 Hs1 Hs2 Hs3 Hnone Hne Hc He3 Hf1.
  set (r := length (heap st)).
  set (e := length (eventStore st)).
  set (rec1 := with_mountEvent (Some e) (new_record cacheElementReactInfo w1 first s)).
  set (st1 := opened cacheElementReactInfo w1 first s st).
  set (st2 := promoted w2 second r rec1 st1).
  assert (H1 : processNode cacheElementReactInfo w1 first added st = Ok () st1)
    by (by apply processNode_opened).
  assert (Hmap1 : activeSurfaces st1 !! s = Some r)
    by (cbn; by rewrite lookup_insert_eq).
  assert (Hr1 : heap st1 !! r = Some rec1) by (cbn; by apply list_lookup_middle).
  assert (H2 : processNode cacheElementReactInfo w2 second added st1 = Ok () st2)
    by (by eapply processNode_promoted).
  assert (Hr2 : heap st2 !! r = Some (promote w2 second rec1)).
  { cbn. apply list_lookup_insert_eq. rewrite length_app. cbn. unfold r. lia. }
  assert (H3 : processNode cacheElementReactInfo w3 last removed st2
               = Ok () (closed w3 s r (promote w2 second rec1) e st2)).
  { apply processNode_closed; [by rewrite He3|done|exact Hmap1|exact Hr2| |done].
    by rewrite He3. }
  eexists _, _, _. split.
  { cbn. unfold mbind, M_bind. rewrite H1, H2, H3. reflexivity. }
  cbn. rewrite delete_insert_id by done.
  rewrite <- app_assoc. cbn.
  split_and!; try done.
  unfold stamp_flowlet at 1.
  destruct (flowletManager_top w3) as [f3|].
  - rewrite lookup_total_insert_eq, lookup_insert_ne by done.
    rewrite Hf1. apply stamp_flowlet_lookup.
  - rewrite Hf1. apply stamp_flowlet_lookup.
Qed.

(** ** Records in the map *)

Lemma open_unstamped_path w event_ action st st' :
  wf st →
  (∀ s info, open_record st s = Some info →
     removeTime info = None ∧ removeFlowlet info = None) →
  path cacheElementReactInfo w event_ st action st' →
  ∀ s info, open_record st' s = Some info →
    removeTime info = None ∧ removeFlowlet info = None.
Proof.
  intros Hwf Hinv Hp s0 info Hinfo.
  destruct (path_open_record w event_ action st st' s0 Hwf Hp)
    as [Heq | (Hs0 & [(_ & _ & Hnew) | [(_ & old & Hold & Hnew)
                      | (_ & old & m & _ & _ & _ & Hnone)]])].
  - rewrite Heq in Hinfo. by eapply Hinv.
  - rewrite Hnew in Hinfo. by injection Hinfo as <-.
  - rewrite Hnew in Hinfo. injection Hinfo as <-. by apply (Hinv s0 old).
  - congruence.
Qed.

(** X16: in every reachable state each tracked surface has a record, the
    record is filed under the surface id it carries, so no two surfaces
    share one, its reference node is one the guard lets through, and it
    bears no removal time or removal flowlet: these are written only on
    the way out of the map. *)
Theorem X16_open_records_are_well_formed st :
  reachable cacheElementReactInfo st →
  (∀ s, is_Some (activeSurfaces st !! s) → is_Some (open_record st s))
  ∧ (∀ s info, open_record st s = Some info →
       surface info = s
       ∧ trackable (element info)
       ∧ removeTime info = None
       ∧ removeFlowlet info = None)
  ∧ (∀ s1 s2 r, activeSurfaces st !! s1 = Some r →
                activeSurfaces st !! s2 = Some r → s1 = s2).
Proof.
  intros Hreach. pose proof (reachable_wf cacheElementReactInfo st Hreach) as Hwf.
  assert (Hlive := proj1 Hwf).
  split_and!.
  - intros s [r Hmap]. destruct (Hlive _ _ Hmap) as (info & Hi & _).
    exists info. apply open_record_Some. eauto.
  - intros s info Hinfo.
    assert (Hun : removeTime info = None ∧ removeFlowlet info = None).
    { destruct Hreach as (bags & g & steps & Hrun).
      refine (proj2 (run_invariant cacheElementReactInfo
                (λ st, wf st ∧ ∀ s info, open_record st s = Some info →
                         removeTime info = None ∧ removeFlowlet info = None)
                steps (init bags g) st _ _ Hrun) s info Hinfo).
      - intros x st1 st2 [Hwf1 Hinv] Hx. split; [by eapply wf_step|].
        apply step_inv in Hx as [(w & event_ & action & -> & Hp) | [-> ->]];
          [by eapply open_unstamped_path | done].
      - split; [apply wf_init|].
        intros s1 i1 (r & Hmap & _)%open_record_Some.
        cbn in Hmap. by rewrite lookup_empty in Hmap. }
    apply open_record_Some in Hinfo as (r & Hmap & Hr).
    destruct (Hlive _ _ Hmap) as (info' & Hr' & Hs & Ht & _).
    assert (info' = info) as -> by congruence. by destruct Hun.
  - intros s1 s2 r H1 H2.
    destruct (Hlive _ _ H1) as (i1 & Hi1 & <- & _).
    destruct (Hlive _ _ H2) as (i2 & Hi2 & <- & _). congruence.
Qed.

End Further.

(** * The scenarios *)

Import Scenario.

Lemma reachable_mount_S1 : reachable true (Scenario.state_after Scenario.mount_S1).
Proof. exists ∅, 0, Scenario.mount_S1. vm_compute. reflexivity. Defined.

Lemma reachable_promote_S1 : reachable true (Scenario.state_after Scenario.promote_S1).
Proof. exists ∅, 0, Scenario.promote_S1. vm_compute. reflexivity. Defined.

Lemma reachable_scenarioA : reachable true (Scenario.state_after Scenario.scenarioA).
Proof. exists ∅, 0, Scenario.scenarioA. vm_compute. reflexivity. Defined.

Lemma run_scenarioA :
  run true Scenario.scenarioA (init ∅ 0%Z)
  = Ok () (Scenario.state_after Scenario.scenarioA).
Proof. vm_compute. reflexivity. Defined.

Lemma close_scenarioA :
  processNode true Scenario.closing (Scenario.notification Scenario.N2 "S1") removed
    (Scenario.state_after Scenario.promote_S1)
  = Ok () (Scenario.state_after Scenario.scenarioA).
Proof. vm_compute. reflexivity. Defined.

Lemma open_record_mount_S1 :
  open_record (Scenario.state_after Scenario.mount_S1) "S1" = Some Scenario.record_N1.
Proof. vm_compute. reflexivity. Defined.

Lemma open_record_promote_S1 :
  open_record (Scenario.state_after Scenario.promote_S1) "S1" = Some Scenario.record_N2.
Proof. vm_compute. reflexivity. Defined.

Lemma trackable_N2 : trackable Scenario.N2.
Proof. split; reflexivity. Defined.

(** ** The node-name test on some names *)

Example regexp_on_names :
  regexp_LINK_SCRIPT_test <$> ["DIV"; "LINK"; "SCRIPT"; "NOSCRIPT"; "MY-LINK-CARD"; "link"]
  = [false; true; true; true; true; false].
Proof. reflexivity. Qed.

(** ** The scenarios, run *)

(** Scenario A: one mount, no event for the promotion, one unmount whose
    duration counts from the promotion; the draw in between is skipped. *)
Example scenarioA_emitted :
  (λ ev, (event ev, element (spread ev), eventTimestamp ev, eventIndex ev,
          mountedDuration ev, mountEvent (spread ev)))
    <$> emitted (Scenario.state_after Scenario.scenarioA)
  = [ (mount_component, Scenario.N1, 1000%Q, 1, None, None);
      (unmount_component, Scenario.N2, 4000%Q, 3, Some (2500 # 1000)%Q, Some 0%nat) ].
Proof. vm_compute. reflexivity. Qed.

Example scenarioA_untracked :
  activeSurfaces (Scenario.state_after Scenario.scenarioA) = ∅.
Proof. vm_compute. reflexivity. Qed.

(** Scenario D: both flowlet names end in the one bag. *)
Example scenarioA_metadata :
  map_to_list (metadataStore (Scenario.state_after Scenario.scenarioA) !!! 7%nat)
  ≡ₚ [("add_flowlet", "/root/click"); ("remove_flowlet", "/root/navigate")].
Proof. vm_compute. by repeat constructor. Qed.

(** Scenario B: a removal by another node leaves the record open. *)
Example scenarioB :
  processNode true Scenario.closing (Scenario.notification Scenario.N3 "S1") removed
    (Scenario.state_after Scenario.mount_S1)
  = Ok () (Scenario.state_after Scenario.mount_S1).
Proof. vm_compute. reflexivity. Qed.

(** Scenario C: a removal without a prior addition. *)
Example scenarioC :
  processNode true Scenario.closing (Scenario.notification Scenario.N3 "S3") removed
    Scenario.empty_page
  = Ok () Scenario.empty_page.
Proof. vm_compute. reflexivity. Qed.

(** The assertion of the unmount path is live: it fails on a record that
    was never mounted, a state the invariant excludes. *)
Example assertion_fails_without_mount_event :
  processNode true Scenario.closing (Scenario.notification Scenario.N1 "S1") removed
    Scenario.never_mounted
  = AssertionFailed "Missing mutaion info for unmounting".
Proof. vm_compute. reflexivity. Qed.

(** ** The properties at concrete inputs *)

Lemma C1_scenarioA_witness :
  ∃ st' uev,
    processNode true Scenario.closing (Scenario.notification Scenario.N2 "S1") removed
      (Scenario.state_after Scenario.promote_S1) = Ok () st'
    ∧ open_record st' "S1" = None
    ∧ emitted st' = emitted (Scenario.state_after Scenario.promote_S1) ++ [uev]
    ∧ event uev = unmount_component
    ∧ eventTimestamp uev = 4000%Q
    ∧ mountEvent (spread uev) = mountEvent Scenario.record_N2.
Proof.
  destruct (C1_matching_close_emits_unmount true Scenario.closing
              (Scenario.notification Scenario.N2 "S1") "S1" Scenario.record_N2
              (Scenario.state_after Scenario.promote_S1)
              reachable_promote_S1 eq_refl open_record_promote_S1 eq_refl)
    as (st' & r & m & mev & uev & x & Hrun & _ & _ & _ & _ & _ & Hnone & _ & _ & _
        & _ & Hem & _ & Hk & Ht & _ & _ & Hm & Hm' & _).
  exists st', uev.
  split; [exact Hrun|]. split; [exact Hnone|]. split; [exact Hem|].
  split; [exact Hk|]. split; [exact Ht|]. exact (eq_trans Hm' (eq_sym Hm)).
Defined.

Lemma C2_first_mount_witness :
  ∃ st' info mev,
    processNode true (Scenario.at_time 1000 (Some Scenario.click))
      (Scenario.notification Scenario.N1 "S1") added Scenario.empty_page = Ok () st'
    ∧ open_record st' "S1" = Some info
    ∧ element info = Scenario.N1
    ∧ addTime info = 1000%Q
    ∧ eventStore st' = [mev]
    ∧ event mev = mount_component
    ∧ eventTimestamp mev = addTime info.
Proof.
  destruct (C2_first_open_emits_mount true (Scenario.at_time 1000 (Some Scenario.click))
              (Scenario.notification Scenario.N1 "S1") "S1" Scenario.empty_page
              (conj eq_refl eq_refl) eq_refl eq_refl)
    as (st' & info & mev & x & Hrun & _ & _ & Hopen & _ & He & Ha & _ & _ & _ & _ & _
        & _ & _ & _ & _ & _ & _ & _ & _ & Hst & Hk & Ht).
  exists st', info, mev.
  split; [exact Hrun|]. split; [exact Hopen|]. split; [exact He|].
  split; [exact Ha|]. split; [exact Hst|].
  split; [exact Hk|exact Ht].
Defined.

Lemma C3_promotion_witness :
  (∃ st' new,
     processNode true (Scenario.at_time 1500 (Some Scenario.click))
       (Scenario.notification Scenario.N2 "S1") added
       (Scenario.state_after Scenario.mount_S1) = Ok () st'
     ∧ open_record st' "S1" = Some new
     ∧ element new = Scenario.N2
     ∧ addTime new = 1500%Q
     ∧ channel st' = channel (Scenario.state_after Scenario.mount_S1))
  ∧ (channel (Scenario.state_after Scenario.scenarioA)
       = channel (Scenario.state_after Scenario.promote_S1)
     ∨ ∃ x s,
         channel (Scenario.state_after Scenario.scenarioA)
           = channel (Scenario.state_after Scenario.promote_S1) ++ [x]
         ∧ trackable Scenario.N2
         ∧ Some "S1" = Some s
         ∧ ((removed = added
             ∧ activeSurfaces (Scenario.state_after Scenario.promote_S1) !! s = None)
            ∨ (removed = removed
               ∧ ∃ old,
                   open_record (Scenario.state_after Scenario.promote_S1) s = Some old
                   ∧ element old = Scenario.N2))).
Proof.
  split;
    [|exact (proj2 (C3_promotion_is_silent true) Scenario.closing
               (Scenario.notification Scenario.N2 "S1") removed _ _ close_scenarioA)].
  destruct (proj1 (C3_promotion_is_silent true)
              (Scenario.at_time 1500 (Some Scenario.click))
              (Scenario.notification Scenario.N2 "S1") "S1" Scenario.record_N1
              (Scenario.state_after Scenario.mount_S1)
              trackable_N2 eq_refl open_record_mount_S1
              ltac:(discriminate) eq_refl)
    as (st' & r & new & Hrun & _ & _ & Hopen & He & _ & Ha & _ & _ & _ & _ & _ & Hch).
  exists st', new.
  split; [exact Hrun|]. split; [exact Hopen|]. split; [exact He|].
  split; [exact Ha|exact Hch].
Defined.

(** C3 without the guard fails for an ancestor the guard rejects:
    the custom element [card] differs from the reference node [N1] of S1
    and contains it, yet the notification is dropped and the reference
    node stays [N1]. *)
Lemma C3_untrackable_ancestor_counterexample :
  reachable true (Scenario.state_after Scenario.mount_S1)
  ∧ open_record (Scenario.state_after Scenario.mount_S1) "S1" = Some Scenario.record_N1
  ∧ Scenario.card ≠ element Scenario.record_N1
  ∧ contains (Scenario.at_time 1500 (Some Scenario.click))
      Scenario.card (element Scenario.record_N1) = true
  ∧ ¬ ∃ st' new,
        processNode true (Scenario.at_time 1500 (Some Scenario.click))
          (Scenario.notification Scenario.card "S1") added
          (Scenario.state_after Scenario.mount_S1) = Ok () st'
        ∧ open_record st' "S1" = Some new
        ∧ element new = Scenario.card.
Proof.
  split; [exact reachable_mount_S1|].
  split; [exact open_record_mount_S1|].
  split; [discriminate|]. split; [reflexivity|].
  intros (st' & new & Hrun & Hopen & He).
  vm_compute in Hrun. injection Hrun as <-.
  vm_compute in Hopen. injection Hopen as <-. discriminate He.
Qed.

Lemma C4_scenario_witness :
  (∀ s info, open_record (Scenario.state_after Scenario.promote_S1) s = Some info →
     is_Some (mountEvent info))
  ∧ ∃ st', processNode true Scenario.closing
             (Scenario.notification Scenario.N2 "S1") removed
             (Scenario.state_after Scenario.promote_S1) = Ok () st'.
Proof.
  destruct (C4_mount_event_present_assert_holds true
              (Scenario.state_after Scenario.promote_S1) reachable_promote_S1)
    as (Hlive & Hret & _).
  split; [exact Hlive|apply Hret].
Defined.

Lemma monotonic_clock_scenarioA : monotonic_clock Scenario.scenarioA.
Proof.
  unfold monotonic_clock. cbn.
  repeat (constructor; try (unfold Qle; cbn; lia)).
Defined.

Lemma C5_scenarioA_witness :
  (∃ st' uev,
     processNode true Scenario.closing (Scenario.notification Scenario.N2 "S1") removed
       (Scenario.state_after Scenario.promote_S1) = Ok () st'
     ∧ emitted st' = emitted (Scenario.state_after Scenario.promote_S1) ++ [uev]
     ∧ mountedDuration uev = Some ((4000 - 1500) / 1000)%Q)
  ∧ (∀ uev, uev ∈ emitted (Scenario.state_after Scenario.scenarioA) →
       event uev = unmount_component →
       ∃ d, mountedDuration uev = Some d ∧ (0 <= d)%Q).
Proof.
  split.
  - destruct (proj1 (C5_mounted_duration true) Scenario.closing
                (Scenario.notification Scenario.N2 "S1") "S1" Scenario.record_N2
                (Scenario.state_after Scenario.promote_S1)
                reachable_promote_S1 eq_refl open_record_promote_S1 eq_refl)
      as (st' & uev & Hrun & Hem & _ & _ & Hd).
    exists st', uev. split; [exact Hrun|]. split; [exact Hem|exact Hd].
  - intros uev Hin Hk.
    destruct (proj2 (C5_mounted_duration true) _ _ Scenario.scenarioA
                (Scenario.state_after Scenario.scenarioA)
                run_scenarioA monotonic_clock_scenarioA uev Hin Hk)
      as (t & d & _ & Hd & _ & Hpos).
    exists d. split; [exact Hd|exact Hpos].
Defined.

Lemma C6_scenarios_witness :
  processNode true Scenario.closing (Scenario.notification Scenario.N3 "S1") removed
    (Scenario.state_after Scenario.mount_S1)
  = Ok () (Scenario.state_after Scenario.mount_S1)
  ∧ processNode true Scenario.closing (Scenario.notification Scenario.N3 "S3") removed
      Scenario.empty_page
    = Ok () Scenario.empty_page
  ∧ processNode true Scenario.closing (Scenario.notification Scenario.N1 "S1") added
      (Scenario.state_after Scenario.mount_S1)
    = Ok () (Scenario.state_after Scenario.mount_S1).
Proof.
  split_and!; apply C6_ignorable_is_noop.
  - apply (ignorable_removed_other_node _ _ _ "S1" Scenario.record_N1);
      [reflexivity | exact open_record_mount_S1 | discriminate].
  - apply (ignorable_removed_untracked _ _ _ "S3"); reflexivity.
  - apply (ignorable_added_same_node _ _ _ "S1" Scenario.record_N1);
      [reflexivity | exact open_record_mount_S1 | reflexivity].
Defined.

Lemma C7_promotion_witness :
  element Scenario.record_N2 = element Scenario.record_N1
  ∨ ∃ w event_,
      Scenario.promotion = Notify w event_ added
      ∧ event_surface event_ = Some "S1"
      ∧ element Scenario.record_N2 = event_element event_
      ∧ event_element event_ ≠ element Scenario.record_N1
      ∧ contains w (event_element event_) (element Scenario.record_N1) = true.
Proof.
  apply (C7_reference_node_changes_by_promotion_only true Scenario.promotion
           (Scenario.state_after Scenario.mount_S1)
           (Scenario.state_after (Scenario.mount_S1 ++ [Scenario.promotion]))
           "S1" Scenario.record_N1 Scenario.record_N2).
  - exact reachable_mount_S1.
  - vm_compute. reflexivity.
  - exact open_record_mount_S1.
  - vm_compute. reflexivity.
Defined.

Lemma C8_scenarioD_witness :
  (∃ st' info,
     processNode true (Scenario.at_time 1000 (Some Scenario.click))
       (Scenario.notification Scenario.N1 "S1") added Scenario.empty_page = Ok () st'
     ∧ open_record st' "S1" = Some info
     ∧ (metadataStore st' !!! metadata info) !! "add_flowlet" = Some "/root/click")
  ∧ (∃ st' uev m mev,
       processNode true Scenario.closing (Scenario.notification Scenario.N2 "S1") removed
         (Scenario.state_after Scenario.promote_S1) = Ok () st'
       ∧ emitted st' = emitted (Scenario.state_after Scenario.promote_S1) ++ [uev]
       ∧ mountEvent (spread uev) = Some m
       ∧ eventStore st' !! m = Some mev
       ∧ event mev = mount_component
       ∧ (metadataStore st' !!! metadata (spread mev)) !! "remove_flowlet"
         = Some "/root/navigate").
Proof.
  split.
  - destruct (proj1 (C8_flowlet_names_in_shared_metadata true)
                (Scenario.at_time 1000 (Some Scenario.click))
                (Scenario.notification Scenario.N1 "S1") "S1" Scenario.click Scenario.empty_page
                (conj eq_refl eq_refl) eq_refl eq_refl eq_refl)
      as (st' & info & mev & x & Hrun & Hopen & _ & _ & _ & _ & _ & _ & _ & _ & Hb).
    exists st', info. split; [exact Hrun|]. split; [exact Hopen|exact Hb].
  - destruct (proj2 (C8_flowlet_names_in_shared_metadata true) Scenario.closing
                (Scenario.notification Scenario.N2 "S1") "S1" Scenario.record_N2
                Scenario.navigate (Scenario.state_after Scenario.promote_S1)
                reachable_promote_S1 eq_refl open_record_promote_S1 eq_refl eq_refl)
      as (st' & uev & m & mev & x & Hrun & _ & _ & _ & Hem & _ & _ & Hm & _ & Hmev
          & Hk & _ & _ & _ & Hb).
    exists st', uev, m, mev.
    split; [exact Hrun|]. split; [exact Hem|]. split; [exact Hm|].
    split; [exact Hmev|]. split; [exact Hk|exact Hb].
Defined.

Lemma increasing_counter : increasing_generator.
Proof. intros g. cbn. lia. Defined.

Lemma C9_scenarioA_witness :
  (∃ ev x,
     channel (Scenario.state_after Scenario.scenarioA)
       = channel (Scenario.state_after Scenario.promote_S1) ++ [x]
     ∧ eventStore (Scenario.state_after Scenario.scenarioA)
       = eventStore (Scenario.state_after Scenario.promote_S1) ++ [ev]
     ∧ eventIndex ev = 3
     ∧ eventIndexState (Scenario.state_after Scenario.scenarioA) = 3)
  ∧ StronglySorted Z.lt
      (eventIndex <$> emitted (Scenario.state_after Scenario.scenarioA)).
Proof.
  split;
    [|exact (proj2 (C9_event_indices_increase true) increasing_counter
               _ _ Scenario.scenarioA _ run_scenarioA)].
  destruct (proj1 (C9_event_indices_increase true) Scenario.closing
              (Scenario.notification Scenario.N2 "S1") removed _ _ close_scenarioA)
    as [(Hch & _) | (ev & x & Hch & _ & Hst & Hi & Hg)].
  - vm_compute in Hch. discriminate Hch.
  - exists ev, x. split; [exact Hch|]. split; [exact Hst|].
    split; [exact Hi|exact Hg].
Defined.

Lemma C10_custom_element_witness :
  regexp_LINK_SCRIPT_test (nodeName Scenario.card) = true
  ∧ processNode true (Scenario.at_time 1500 None)
      (Scenario.notification Scenario.card "S1") added
      (Scenario.state_after Scenario.mount_S1)
    = Ok () (Scenario.state_after Scenario.mount_S1).
Proof.
  apply (C10_link_script_substring_guard true _
           (Scenario.notification Scenario.card "S1") added _ "MY-" "-CARD").
  left. reflexivity.
Defined.

(** ** The further properties at concrete inputs *)

Lemma open_scenarioA :
  processNode true (Scenario.at_time 1000 (Some Scenario.click))
    (Scenario.notification Scenario.N1 "S1") added Scenario.empty_page
  = Ok () (Scenario.state_after Scenario.mount_S1).
Proof. vm_compute. reflexivity. Defined.

Lemma mount_S2_after_S1 :
  processNode true (Scenario.at_time 1200 None)
    (Scenario.notification Scenario.N3 "S2") added
    (Scenario.state_after Scenario.mount_S1)
  = Ok () (Scenario.state_after (Scenario.mount_S1 ++ [Scenario.mount_S2])).
Proof. vm_compute. reflexivity. Defined.

Lemma run_close_S1 :
  run true Scenario.close_S1 (Scenario.state_after Scenario.promote_S1)
  = Ok () (Scenario.state_after Scenario.scenarioA).
Proof. vm_compute. reflexivity. Defined.

Lemma X1_second_publish_witness :
  publish false al_surface_mount (Scenario.at_time 1001 None)
    (Scenario.notification Scenario.N1 "S1")
    (Scenario.state_after Scenario.mount_S1)
  = Ok () (Scenario.state_after Scenario.mount_S1).
Proof.
  apply (X1_second_listener_is_noop true false al_surface_mount
           (Scenario.at_time 1000 (Some Scenario.click))
           (Scenario.at_time 1001 None)
           (Scenario.notification Scenario.N1 "S1") Scenario.empty_page).
  - intros b. reflexivity.
  - exact open_scenarioA.
Defined.

Lemma X2_open_then_close_witness :
  ∃ st2 uev,
    activeSurfaces st2 = activeSurfaces Scenario.empty_page
    ∧ event uev = unmount_component
    ∧ mountEvent (spread uev) = Some 0%nat
    ∧ mountedDuration uev = Some ((4000 - 1000) / 1000)%Q.
Proof.
  destruct (X2_open_then_close true
              (Scenario.at_time 1000 (Some Scenario.click)) Scenario.closing
              (Scenario.notification Scenario.N1 "S1") "S1" Scenario.empty_page
              (conj eq_refl eq_refl) eq_refl eq_refl)
    as (st1 & st2 & mev & uev & _ & _ & Hmap & _ & _ & _ & Hk & Hm & _ & _ & Hd).
  exists st2, uev.
  split; [exact Hmap|]. split; [exact Hk|]. split; [exact Hm|exact Hd].
Defined.

Lemma X3_superseded_node_witness :
  ∃ st1 new,
    processNode true Scenario.closing (Scenario.notification Scenario.N1 "S1") removed st1
    = Ok () st1
    ∧ open_record st1 "S1" = Some new
    ∧ element new = Scenario.N2.
Proof.
  destruct (X3_removal_of_superseded_node_is_dropped true
              (Scenario.at_time 1500 (Some Scenario.click)) Scenario.closing
              (Scenario.notification Scenario.N2 "S1")
              (Scenario.notification Scenario.N1 "S1") "S1" Scenario.record_N1
              (Scenario.state_after Scenario.mount_S1)
              trackable_N2 eq_refl open_record_mount_S1 ltac:(discriminate)
              eq_refl eq_refl eq_refl)
    as (st1 & new & _ & Hdrop & Hopen & He).
  exists st1, new. split; [exact Hdrop|]. split; [exact Hopen|exact He].
Defined.

Lemma X4_other_surface_witness :
  open_record (Scenario.state_after (Scenario.mount_S1 ++ [Scenario.mount_S2])) "S1"
  = open_record (Scenario.state_after Scenario.mount_S1) "S1".
Proof.
  apply (X4_other_surfaces_untouched true (Scenario.at_time 1200 None)
           (Scenario.notification Scenario.N3 "S2") added
           (Scenario.state_after Scenario.mount_S1) _ "S1"
           reachable_mount_S1 mount_S2_after_S1).
  discriminate.
Defined.

Lemma X5_removed_shrinks_witness :
  activeSurfaces (Scenario.state_after Scenario.scenarioA)
    ⊆ activeSurfaces (Scenario.state_after Scenario.promote_S1)
  ∧ ∀ s, Some "S1" ≠ Some s →
         activeSurfaces (Scenario.state_after Scenario.scenarioA) !! s
         = activeSurfaces (Scenario.state_after Scenario.promote_S1) !! s.
Proof.
  exact (X5_map_grows_on_added_shrinks_on_removed true Scenario.closing
           (Scenario.notification Scenario.N2 "S1") removed _ _ close_scenarioA).
Defined.

Lemma X6_append_only_witness :
  eventStore (Scenario.state_after Scenario.promote_S1)
    `prefix_of` eventStore (Scenario.state_after Scenario.scenarioA)
  ∧ channel (Scenario.state_after Scenario.promote_S1)
      `prefix_of` channel (Scenario.state_after Scenario.scenarioA)
  ∧ ∀ e ev,
      eventStore (Scenario.state_after Scenario.promote_S1) !! e = Some ev →
      eventStore (Scenario.state_after Scenario.scenarioA) !! e = Some ev.
Proof.
  exact (X6_emissions_are_never_retracted true Scenario.close_S1 _ _ run_close_S1).
Defined.

Lemma X7_fixed_fields_witness :
  ∃ i', heap (Scenario.state_after Scenario.scenarioA) !! 0%nat = Some i'
        ∧ same_fixed_fields Scenario.record_N2 i'.
Proof.
  apply (X7_records_keep_their_fixed_fields true Scenario.close_S1
           (Scenario.state_after Scenario.promote_S1) _ 0%nat Scenario.record_N2
           run_close_S1).
  vm_compute. reflexivity.
Defined.

Lemma X8_counting_witness :
  count_events mount_component (emitted (Scenario.state_after Scenario.promote_S1))
  = (count_events unmount_component
       (emitted (Scenario.state_after Scenario.promote_S1))
     + size (activeSurfaces (Scenario.state_after Scenario.promote_S1)))%nat.
Proof.
  exact (X8_mounts_are_unmounts_plus_open true _ reachable_promote_S1).
Defined.

Lemma X9_assertion_witness :
  processNode true Scenario.closing (Scenario.notification Scenario.N1 "S1") removed
    Scenario.never_mounted
  = AssertionFailed "Missing mutaion info for unmounting".
Proof.
  apply (proj2 (X9_assertion_fails_exactly_without_mount_event true Scenario.closing
                  (Scenario.notification Scenario.N1 "S1") removed
                  Scenario.never_mounted _)).
  split; [reflexivity|]. split; [reflexivity|]. split; [split; reflexivity|].
  exists "S1", (with_mountEvent None Scenario.record_N1).
  split; [reflexivity|]. split; [vm_compute; reflexivity|].
  split; reflexivity.
Defined.

Lemma X10_metadata_witness :
  (metadataStore (Scenario.state_after Scenario.mount_S1) !!! 7%nat) !! "remove_flowlet"
  = (metadataStore Scenario.empty_page !!! 7%nat) !! "remove_flowlet".
Proof.
  destruct (X10_metadata_writes true (Scenario.at_time 1000 (Some Scenario.click))
              (Scenario.notification Scenario.N1 "S1") added Scenario.empty_page
              (Scenario.state_after Scenario.mount_S1) 7%nat "remove_flowlet"
              open_scenarioA)
    as [Hsame | (f & s & _ & _ & _ & [(_ & Hk & _) | (Hrem & _)])].
  - exact Hsame.
  - discriminate Hk.
  - discriminate Hrem.
Defined.

Lemma X11_pairing_witness :
  ∃ uev m mev,
    eventStore (Scenario.state_after Scenario.scenarioA) !! 1%nat = Some uev
    ∧ event uev = unmount_component
    ∧ mountEvent (spread uev) = Some m
    ∧ (m < 1)%nat
    ∧ eventStore (Scenario.state_after Scenario.scenarioA) !! m = Some mev
    ∧ event mev = mount_component
    ∧ surface (spread mev) = surface (spread uev)
    ∧ metadata (spread mev) = metadata (spread uev).
Proof.
  assert (∃ uev, eventStore (Scenario.state_after Scenario.scenarioA) !! 1%nat = Some uev
                 ∧ event uev = unmount_component) as (uev & Hl & Hk).
  { eexists. split; [vm_compute; reflexivity|reflexivity]. }
  destruct (proj1 (X11_unmounts_pair_with_earlier_mounts true _ reachable_scenarioA)
              1%nat uev Hl Hk)
    as (m & mev & Hm & Hlt & Hmev & Hkm & Hs & Hb).
  exists uev, m, mev.
  split; [exact Hl|]. split; [exact Hk|]. split; [exact Hm|]. split; [exact Hlt|].
  split; [exact Hmev|]. split; [exact Hkm|]. split; [exact Hs|exact Hb].
Defined.

Lemma X12_event_shape_witness :
  Forall event_shape (emitted (Scenario.state_after Scenario.scenarioA)).
Proof.
  exact (X12_emitted_event_shape true _ reachable_scenarioA).
Defined.

Lemma X13_timestamp_order_witness :
  StronglySorted Qle
    (eventTimestamp <$> emitted (Scenario.state_after Scenario.scenarioA)).
Proof.
  exact (X13_event_timestamps_in_channel_order true _ _ Scenario.scenarioA _
           run_scenarioA monotonic_clock_scenarioA).
Defined.


Lemma X15_scenarioA_witness :
  ∃ st3 mev uev,
    run true
      [Notify (Scenario.at_time 1000 (Some Scenario.click))
         (Scenario.notification Scenario.N1 "S1") added;
       Notify (Scenario.at_time 1500 None)
         (Scenario.notification Scenario.N2 "S1") added;
       Notify Scenario.closing (Scenario.notification Scenario.N2 "S1") removed]
      Scenario.empty_page
    = Ok () st3
    ∧ eventStore st3 = eventStore Scenario.empty_page ++ [mev; uev]
    ∧ element (spread mev) = Scenario.N1
    ∧ element (spread uev) = Scenario.N2
    ∧ addFlowlet (spread uev) = None
    ∧ mountedDuration uev = Some ((4000 - 1500) / 1000)%Q
    ∧ (metadataStore st3 !!! 7%nat) !! "add_flowlet" = Some "/root/click".
Proof.
  destruct (X15_mount_promote_unmount true
              (Scenario.at_time 1000 (Some Scenario.click))
              (Scenario.at_time 1500 None) Scenario.closing
              (Scenario.notification Scenario.N1 "S1")
              (Scenario.notification Scenario.N2 "S1")
              (Scenario.notification Scenario.N2 "S1") "S1" Scenario.click
              Scenario.empty_page
              (conj eq_refl eq_refl) trackable_N2 eq_refl eq_refl eq_refl eq_refl
              ltac:(discriminate) eq_refl eq_refl eq_refl)
    as (st3 & mev & uev & Hrun & _ & Hst & _ & He1 & _ & _ & _ & He2 & _ & Hf & Hd
        & _ & _ & _ & Hb).
  exists st3, mev, uev.
  split; [exact Hrun|]. split; [exact Hst|]. split; [exact He1|].
  split; [exact He2|]. split; [exact Hf|]. split; [exact Hd|exact Hb].
Defined.

Lemma X16_open_records_witness :
  surface Scenario.record_N2 = "S1"
  ∧ trackable (element Scenario.record_N2)
  ∧ removeTime Scenario.record_N2 = None
  ∧ removeFlowlet Scenario.record_N2 = None.
Proof.
  exact (proj1 (proj2 (X16_open_records_are_well_formed true _ reachable_promote_S1))
           "S1" Scenario.record_N2 open_record_promote_S1).
Defined.
